(** * SRT: the SVF report transformer (src/SRT.py)

    A shallow embedding of the enrichment pipeline of [SRT.py] and the
    properties of its three parts: the path resolver ([deal_duplicate]),
    the lexical filter ([name_filter]) and the per-warning enricher (the
    body of the main loop, here [enrich]).

    Modelling conventions.
    - Python [int] is [Z]; Python [str] is [string] (the text handled is
      ASCII: the token pattern only matches ASCII characters).
    - A raised exception is the [Raise] case of the result type [exc].
    - The file system is an oracle: the list of the regular files below
      the working directory with the lines [readlines()] returns for
      each.  Reported file names are plain base names (no glob
      metacharacters, no separators), so [rglob] is a base-name match.
    - Console logging ([SRT_log]) has no effect on the report and is left
      out. *)

From Stdlib Require Import ZArith Ascii String List Bool Lia Sorted.
From Stdlib Require Import DecimalString.
From stdpp Require Import base tactics option list.

Local Open Scope string_scope.
Local Open Scope list_scope.
Local Open Scope Z_scope.

(** ** Python primitives *)

Inductive pyexn : Type :=
  | IndexError
  | FileNotFoundError
  | AttributeError.

Inductive exc (A : Type) : Type :=
  | Ret (a : A)
  | Raise (e : pyexn).

Arguments Ret {A} a.
Arguments Raise {A} e.

#[global] Instance exc_ret : MRet exc := fun A a => Ret a.

#[global] Instance exc_bind : MBind exc := fun A B k m =>
  match m with
  | Ret a => k a
  | Raise e => Raise e
  end.

(** [l[i]] with Python's negative indices; [IndexError] out of range. *)
Definition py_index {A : Type} (l : list A) (i : Z) : exc A :=
  let n := Z.of_nat (length l) in
  let j := if i <? 0 then i + n else i in
  if (j <? 0) || (n <=? j) then Raise IndexError
  else match l !! Z.to_nat j with
       | Some x => Ret x
       | None => Raise IndexError
       end.

(** A slice bound is clamped into [0 .. n], a negative one counted from
    the end. *)
Definition py_clamp (n i : Z) : Z :=
  if i <? 0 then Z.max 0 (i + n) else Z.min i n.

(** [l[a:b]]. *)
Definition py_slice {A : Type} (l : list A) (a b : Z) : list A :=
  let n := Z.of_nat (length l) in
  let lo := py_clamp n a in
  let hi := py_clamp n b in
  take (Z.to_nat (hi - lo)) (drop (Z.to_nat lo) l).

Definition chars (s : string) : list ascii := list_ascii_of_string s.

Definition str_len (s : string) : Z := Z.of_nat (String.length s).

Definition str_index (s : string) (i : Z) : exc ascii := py_index (chars s) i.

Definition str_slice (s : string) (a b : Z) : string :=
  string_of_list_ascii (py_slice (chars s) a b).

(** [needle in hay]. *)
Fixpoint str_contains (needle hay : string) : bool :=
  String.prefix needle hay ||
  match hay with
  | EmptyString => false
  | String _ hay' => str_contains needle hay'
  end.

(** Truth value of a [str]: non-empty. *)
Definition str_truthy (s : string) : bool :=
  match s with
  | EmptyString => false
  | String _ _ => true
  end.

Definition code (c : ascii) : Z := Z.of_nat (nat_of_ascii c).

Definition in_range (lo hi : Z) (c : ascii) : bool :=
  (lo <=? code c) && (code c <=? hi).

(** [str.isspace] on ASCII: TAB, LF, VT, FF, CR, FS, GS, RS, US, space. *)
Definition isspace (c : ascii) : bool :=
  in_range 9 13 c || in_range 28 32 c.

Definition isupper (c : ascii) : bool := in_range 65 90 c.

Definition islower (c : ascii) : bool := in_range 97 122 c.

Definition isalpha (c : ascii) : bool := isupper c || islower c.

Definition isdigit (c : ascii) : bool := in_range 48 57 c.

Fixpoint drop_while {A : Type} (p : A -> bool) (l : list A) : list A :=
  match l with
  | [] => []
  | x :: l' => if p x then drop_while p l' else l
  end.

Definition lstrip (s : string) : string :=
  string_of_list_ascii (drop_while isspace (chars s)).

Definition rstrip (s : string) : string :=
  string_of_list_ascii (rev (drop_while isspace (rev (chars s)))).

(** ** The file system oracle *)

(** A path is the list of its components. *)
Definition Path : Type := list string.

Record FS : Type := mkFS {
  cwd : Path;                          (* the working directory, from / *)
  files : list (Path * list string)    (* relative path, readlines() *)
}.

(** [Path.name]. *)
Definition path_name (p : Path) : string := List.last p EmptyString.

(** [str(p)] for a relative path. *)
Definition path_str (p : Path) : string := String.concat "/" p.

(** [str(p.absolute())]. *)
Definition absolute (fs : FS) (p : Path) : string :=
  String.append "/" (String.concat "/" (cwd fs ++ p)).

(** [pathlib.Path().rglob(name)]: every file below the working directory
    whose base name is [name], as a path relative to it. *)
Definition rglob (fs : FS) (name : string) : list Path :=
  List.filter (fun p => String.eqb (path_name p) name) (map fst (files fs)).

Fixpoint find_file (adir : string) (cwd : Path) (fl : list (Path * list string))
    : exc (list string) :=
  match fl with
  | [] => Raise FileNotFoundError
  | (p, lines) :: fl' =>
      if String.eqb (String.append "/" (String.concat "/" (cwd ++ p))) adir
      then Ret lines
      else find_file adir cwd fl'
  end.

(** [open(adir).readlines()]. *)
Definition open_readlines (fs : FS) (adir : string) : exc (list string) :=
  find_file adir (cwd fs) (files fs).

(** ** Tags and messages *)

Module SVFTag.

Module DefectType.

Definition NF : string := "Never Free".
Definition DF : string := "Double Free".
Definition UAF : string := "Use After Free".
Definition PL : string := "Partial Leak".

End DefectType.

Definition true : string := "True".
Definition false : string := "False".

End SVFTag.

Module TransformMessage.

Definition AC : string := EmptyString.
Definition DFF : string := "Duplicated Files Found".
Definition NSF : string := "No Such File".
Definition CIV : string := "Cannot Infer VarName".
Definition DFFIC : string := "Duplicated Files Found In Conditions Analysis".
Definition NSFIC : string := "No Such File In Conditions Analysis".

End TransformMessage.

(** ** The path resolver: [deal_duplicate] *)

(** The body of [for file in files]: [res] is the list built so far. *)
Fixpoint deal_duplicate_loop (fs : FS) (ln co : Z) (files : list Path)
    (func_name : string) (res : list Path) : exc (list Path) :=
  match files with
  | [] => mret res
  | file :: files' =>
      lines ← open_readlines fs (absolute fs file);
      if Z.of_nat (length lines) <? ln
      then deal_duplicate_loop fs ln co files' func_name res
      else
        line ← py_index lines (ln - 1);
        if str_len line <? co
        then deal_duplicate_loop fs ln co files' func_name res
        else
          if str_truthy func_name
          then
            let flag := existsb (str_contains func_name) (py_slice lines 0 ln) in
            if negb flag
            then deal_duplicate_loop fs ln co files' func_name res
            else deal_duplicate_loop fs ln co files' func_name (res ++ [file])
          else deal_duplicate_loop fs ln co files' func_name (res ++ [file])
  end.

Definition deal_duplicate (fs : FS) (ln co : Z) (files : list Path)
    (func_name : string) : exc (Z * option Path) :=
  res ← deal_duplicate_loop fs ln co files func_name [];
  if (1 <? length res)%nat then mret (1, None)
  else if (length res =? 1)%nat then mret (0, res !! 0%nat)
  else mret (-1, None).

(** ** The lexical filter: [name_filter] *)

Definition C_CPP_KEYWORDS : list string :=
  [ "auto"; "break"; "case"; "catch"; "char"; "const";
    "continue"; "default"; "do"; "double"; "else";
    "enum"; "extern"; "float"; "for"; "goto"; "if";
    "int"; "long"; "register"; "return"; "short";
    "signed"; "sizeof"; "static"; "struct"; "switch"; "try";
    "typedef"; "union"; "unsigned"; "void"; "volatile"; "while"; "when" ].

(** Membership in a list or set of strings: [x in xs]. *)
Definition str_in (x : string) (xs : list string) : bool :=
  existsb (String.eqb x) xs.

(** The two character classes of [C_VAR_NAME]:
    [[_a-zA-Z]] and [[_a-zA-Z0-9.\[\]]]. *)
Definition name_head (c : ascii) : bool :=
  Ascii.eqb c "_" || isalpha c.

Definition name_tail (c : ascii) : bool :=
  name_head c || isdigit c || Ascii.eqb c "." || Ascii.eqb c "[" || Ascii.eqb c "]".

(** [C_VAR_NAME.finditer(line)] as the list of the spans
    [(m.start(), m.end())]: the scan is at offset [pos], and [cur] is the
    start of the match being extended, if any.  A match starts at the
    first character of the first class and takes every following
    character of the second class (which contains the first). *)
Fixpoint scan_names (s : list ascii) (pos : Z) (cur : option Z) : list (Z * Z) :=
  match s with
  | [] =>
      match cur with
      | Some start => [(start, pos)]
      | None => []
      end
  | c :: s' =>
      match cur with
      | Some start =>
          if name_tail c then scan_names s' (pos + 1) (Some start)
          else (start, pos) :: scan_names s' (pos + 1) None
      | None =>
          if name_head c then scan_names s' (pos + 1) (Some pos)
          else scan_names s' (pos + 1) None
      end
  end.

Definition finditer (line : string) : list (Z * Z) :=
  scan_names (chars line) 0 None.

Definition are_all_letters_uppercase (s : string) : bool :=
  let letters := List.filter isalpha (chars s) in
  forallb isupper letters.

(** [lstr[i] == ch]. *)
Definition char_is (lstr : string) (i : Z) (ch : ascii) : exc bool :=
  x ← str_index lstr i; mret (Ascii.eqb x ch).

(** Python's short-circuit [or] over operands that may raise. *)
Definition exc_or (a b : exc bool) : exc bool :=
  x ← a; if x : bool then mret true else b.

Definition dquote : ascii := "034"%char.

(** The first [if] of the loop body: a quote before or after the span,
    a [)] before it or a [(] after it. *)
Definition name_excluded (lstr : string) (start end_ : Z) : exc bool :=
  let before := Z.max 0 (start - 1) in
  let after := Z.min (str_len lstr - 1) end_ in
  exc_or (char_is lstr before "'")
  (exc_or (char_is lstr before dquote)
  (exc_or (char_is lstr after "'")
  (exc_or (char_is lstr after dquote)
  (exc_or (char_is lstr before ")")
          (char_is lstr after "("))))).

Fixpoint name_filter_loop (lstr : string) (it : list (Z * Z)) (cap_assert : bool)
    (res : list string) : exc (list string) :=
  match it with
  | [] => mret res
  | (start, end_) :: it' =>
      skip ← name_excluded lstr start end_;
      if skip : bool then name_filter_loop lstr it' cap_assert res
      else
        let tok := str_slice lstr start end_ in
        if negb (str_in tok res) && negb (str_in tok C_CPP_KEYWORDS)
           && (negb (are_all_letters_uppercase tok) || negb cap_assert)
        then name_filter_loop lstr it' cap_assert (res ++ [tok])
        else name_filter_loop lstr it' cap_assert res
  end.

Definition name_filter (lstr : string) (it : list (Z * Z)) (cap_assert : bool)
    : exc (list string) :=
  name_filter_loop lstr it cap_assert [].

(** ** Warning records *)

(** [warn["Location"]]: keys [fl], [ln], [cl]. *)
Record location : Type := mkLocation {
  fl : string;
  ln : Z;
  cl : Z
}.

(** [cond["BranchLoc"]]: keys [fl], [ln]. *)
Record branch_loc : Type := mkBranchLoc {
  bfl : string;
  bln : Z
}.

(** An entry of [warn["Description"]["ConditionalFreePath"]]; the key
    [CodeNear] is absent until the enricher stores it. *)
Record cond_path : Type := mkCond {
  BL : branch_loc;
  BC : string;
  BCode : option string
}.

(** A warning of the report, with the four keys the enricher adds. *)
Record warning : Type := mkWarning {
  DT : string;
  Loc : location;
  Func : string;
  CFP : list cond_path;
  V : list string;
  Code : list string;
  Flag : string;
  Msg : string
}.

Record Args : Type := mkArgs {
  input_file : string;
  output_file : string;
  root_dir : string;
  copy_range : Z;
  cap_not_name : bool
}.

Definition set_fl (warn : warning) (s : string) : warning :=
  mkWarning (DT warn) (mkLocation s (ln (Loc warn)) (cl (Loc warn))) (Func warn)
            (CFP warn) (V warn) (Code warn) (Flag warn) (Msg warn).

Definition set_CFP (warn : warning) (conds : list cond_path) : warning :=
  mkWarning (DT warn) (Loc warn) (Func warn) conds (V warn) (Code warn)
            (Flag warn) (Msg warn).

Definition set_V (warn : warning) (names : list string) : warning :=
  mkWarning (DT warn) (Loc warn) (Func warn) (CFP warn) names (Code warn)
            (Flag warn) (Msg warn).

Definition set_Code (warn : warning) (lines : list string) : warning :=
  mkWarning (DT warn) (Loc warn) (Func warn) (CFP warn) (V warn) lines
            (Flag warn) (Msg warn).

(** [warn[Flag] = flag; warn[Msg] = msg]. *)
Definition set_status (warn : warning) (flag msg : string) : warning :=
  mkWarning (DT warn) (Loc warn) (Func warn) (CFP warn) (V warn) (Code warn)
            flag msg.

Definition set_bfl (cond : cond_path) (s : string) : cond_path :=
  mkCond (mkBranchLoc s (bln (BL cond))) (BC cond) (BCode cond).

Definition set_BCode (cond : cond_path) (s : string) : cond_path :=
  mkCond (BL cond) (BC cond) (Some s).

(** ** The enricher: the body of [for warn in report] *)

(** Step 0: the four new keys. *)
Definition init_keys (warn : warning) : warning :=
  mkWarning (DT warn) (Loc warn) (Func warn) (CFP warn) [] []
            EmptyString EmptyString.

(** The end of the body of [for cond in conditional_paths]: the single
    line of the branch, stripped. *)
Definition cond_excerpt (fs : FS) (warn : warning) (cond : cond_path) (l : Z)
    (src_file : Path) : exc (warning * cond_path) :=
  let adir := absolute fs src_file in
  lines ← open_readlines fs adir;
  x ← py_index lines (l - 1);
  mret (warn, set_BCode cond (rstrip (lstrip x))).

(** The body of [for cond in conditional_paths]; its [continue] goes to
    the next entry of the same warning. *)
Definition cond_body (fs : FS) (warn : warning) (cond : cond_path)
    : exc (warning * cond_path) :=
  let l := bln (BL cond) in
  let svf_file := bfl (BL cond) in
  let ori_path := rglob fs svf_file in
  match ori_path with
  | [p] => cond_excerpt fs warn (set_bfl cond (path_str p)) l p
  | [] => mret (set_status warn SVFTag.false TransformMessage.NSF, cond)
  | _ =>
      r ← deal_duplicate fs (ln (Loc warn)) (cl (Loc warn)) ori_path EmptyString;
      let flag := fst r in
      let src_file := snd r in
      if flag =? 1
      then mret (set_status warn SVFTag.false TransformMessage.DFFIC, cond)
      else if flag =? -1
      then mret (set_status warn SVFTag.false TransformMessage.NSFIC, cond)
      else match src_file with
           | Some p => cond_excerpt fs warn cond l p
           | None => Raise AttributeError
           end
  end.

Fixpoint cond_loop (fs : FS) (warn : warning) (conds : list cond_path)
    : exc (warning * list cond_path) :=
  match conds with
  | [] => mret (warn, [])
  | cond :: rest =>
      r ← cond_body fs warn cond;
      r' ← cond_loop fs (fst r) rest;
      mret (fst r', snd r :: snd r')
  end.

(** Steps 2 and 3 and the last two assignments of the loop body, for a
    warning whose primary file is [src_file]. *)
Definition enrich_resolved (args : Args) (fs : FS) (warn : warning)
    (src_file : Path) : exc warning :=
  let adir := absolute fs src_file in
  lines ← open_readlines fs adir;
  let l := ln (Loc warn) in
  line ← py_index lines (l - 1);
  var_name ← name_filter line (finditer line) (cap_not_name args);
  let warn := set_V warn var_name in
  let lines := py_slice lines (Z.max 0 (l - 1 - copy_range args))
                        (Z.min (Z.of_nat (length lines)) (l + copy_range args)) in
  let lines := (fun line => rstrip (lstrip line)) <$> lines in
  let warn := set_Code warn lines in
  warn ← (if String.eqb (DT warn) SVFTag.DefectType.PL
          then r ← cond_loop fs warn (CFP warn);
               mret (set_CFP (fst r) (snd r))
          else mret warn);
  mret (set_status warn SVFTag.true TransformMessage.AC).

(** The whole loop body; a [continue] of the outer loop returns the
    record as it is then. *)
Definition enrich (args : Args) (fs : FS) (warn : warning) : exc warning :=
  let warn := init_keys warn in
  let svf_file := fl (Loc warn) in
  let ori_path := rglob fs svf_file in
  match ori_path with
  | [p] => enrich_resolved args fs (set_fl warn (path_str p)) p
  | [] => mret (set_status warn SVFTag.false TransformMessage.NSF)
  | _ =>
      r ← deal_duplicate fs (ln (Loc warn)) (cl (Loc warn)) ori_path (Func warn);
      let flag := fst r in
      let src_file := snd r in
      if flag =? 1
      then mret (set_status warn SVFTag.false TransformMessage.DFF)
      else if flag =? -1
      then mret (set_status warn SVFTag.false TransformMessage.NSF)
      else match src_file with
           | Some p => enrich_resolved args fs warn p
           | None => Raise AttributeError
           end
  end.

(** [for warn in report] followed by [json.dump]: the report written, or
    the exception that ends the run before anything is written. *)
Fixpoint run (args : Args) (fs : FS) (report : list warning)
    : exc (list warning) :=
  match report with
  | [] => mret []
  | warn :: report' =>
      warn' ← enrich args fs warn;
      rest ← run args fs report';
      mret (warn' :: rest)
  end.

(** ** The resolver in the words of the specification *)

(** The lines of a file of the tree (no lines for a path that is not a
    file of the tree). *)
Definition lines_of (fs : FS) (p : Path) : list string :=
  match open_readlines fs (absolute fs p) with
  | Ret lines => lines
  | Raise _ => []
  end.

(** A candidate is rejected when it has fewer than [line] lines, when
    its [line]-th line is shorter than [column] characters, or when the
    hint is non-empty and none of its first [line] lines contains it. *)
Definition rejected (lines : list string) (line column : Z) (hint : string)
    : bool :=
  (Z.of_nat (length lines) <? line)
  || match lines !! Z.to_nat (line - 1) with
     | Some s => str_len s <? column
     | None => false
     end
  || (str_truthy hint
      && forallb (fun s => negb (str_contains hint s))
                 (take (Z.to_nat line) lines)).

Inductive resolution : Type :=
  | Ok (p : Path)
  | Ambiguous
  | NotFound.

Definition classify (remaining : list Path) : resolution :=
  match remaining with
  | [] => NotFound
  | [p] => Ok p
  | _ :: _ :: _ => Ambiguous
  end.

(** The pair [deal_duplicate] returns for each outcome. *)
Definition as_tuple (r : resolution) : Z * option Path :=
  match r with
  | Ok p => (0, Some p)
  | Ambiguous => (1, None)
  | NotFound => (-1, None)
  end.

Definition remaining (fs : FS) (line column : Z) (cands : list Path)
    (hint : string) : list Path :=
  List.filter (fun p => negb (rejected (lines_of fs p) line column hint)) cands.

(** The text of each span, in the order of the spans. *)
Definition span_texts (lstr : string) (it : list (Z * Z)) : list string :=
  map (fun se => str_slice lstr (fst se) (snd se)) it.

(** ** The enricher in the words of the specification *)

(** A line stripped as the excerpts are. *)
Definition strip (line : string) : string := rstrip (lstrip line).

(** Everything but the status and its message is the same. *)
Definition same_payload (w w' : warning) : Prop :=
  DT w' = DT w /\ Loc w' = Loc w /\ Func w' = Func w /\ CFP w' = CFP w
  /\ V w' = V w /\ Code w' = Code w.

(** The resolution of a conditional free path of a warning located at
    [loc], as the code computes it: the search by base name, then for
    several matches the corroboration at the line and column of [loc]
    with no hint. *)
Definition cond_resolution (fs : FS) (loc : location) (c : cond_path)
    : resolution :=
  match rglob fs (bfl (BL c)) with
  | [] => NotFound
  | [p] => Ok p
  | cands => classify (remaining fs (ln loc) (cl loc) cands EmptyString)
  end.

(** What the loop over the conditional free paths leaves of the entry
    [c] in [c']: an entry that does not resolve is as it was; an entry
    that resolves carries the stripped line at its own line number, and
    the path of its file when that is the only match. *)
Definition cond_outcome (fs : FS) (loc : location) (c c' : cond_path) : Prop :=
  match cond_resolution fs loc c with
  | Ok p =>
      exists x, py_index (lines_of fs p) (bln (BL c) - 1) = Ret x
                /\ BCode c' = Some (strip x)
                /\ BC c' = BC c
                /\ bln (BL c') = bln (BL c)
                /\ (rglob fs (bfl (BL c)) = [p] -> bfl (BL c') = path_str p)
  | Ambiguous | NotFound => c' = c
  end.

Definition set_root_dir (args : Args) (r : string) : Args :=
  mkArgs (input_file args) (output_file args) r (copy_range args)
         (cap_not_name args).

(** The resolution of the primary location: the search by base name,
    then for several matches the corroboration at the line and column
    of the warning with its function name as hint. *)
Definition primary_resolution (fs : FS) (warn : warning) : resolution :=
  match rglob fs (fl (Loc warn)) with
  | [] => NotFound
  | [p] => Ok p
  | cands =>
      classify (remaining fs (ln (Loc warn)) (cl (Loc warn)) cands (Func warn))
  end.

(** The entry [c] of a warning located at [loc], when it resolves, is at
    a line of the file it resolves to. *)
Definition cond_in_range (fs : FS) (loc : location) (c : cond_path) : Prop :=
  forall p, cond_resolution fs loc c = Ok p ->
            1 <= bln (BL c) <= Z.of_nat (length (lines_of fs p)).

(** The body of the loop over the conditional free paths for an entry
    of several matches, as the specification words it, with the line
    number [line] used to corroborate the candidates: the column is the
    one of the warning and there is no hint. *)
Definition cond_body_corroborating (line : Z) (fs : FS) (warn : warning)
    (c : cond_path) : exc (warning * cond_path) :=
  let cands := rglob fs (bfl (BL c)) in
  match classify (remaining fs line (cl (Loc warn)) cands EmptyString) with
  | Ok p => cond_excerpt fs warn c (bln (BL c)) p
  | Ambiguous =>
      Ret (set_status warn SVFTag.false TransformMessage.DFFIC, c)
  | NotFound =>
      Ret (set_status warn SVFTag.false TransformMessage.NSFIC, c)
  end.

(** The loop over the conditional free paths stops at the first entry
    that does not resolve: the entries after it are as they were. *)
Definition stops_after_failure (args : Args) (fs : FS) (warn : warning) : Prop :=
  forall (w' : warning) (i j : nat) (c cj : cond_path),
    DT warn = SVFTag.DefectType.PL ->
    enrich args fs warn = Ret w' ->
    CFP warn !! i = Some c ->
    (forall p, cond_resolution fs (Loc warn) c <> Ok p) ->
    (i < j)%nat ->
    CFP warn !! j = Some cj ->
    CFP w' !! j = Some cj.

(** ** A sample tree *)

Definition eol : string := String "010"%char EmptyString.

(** The lines of a text file as [readlines()] returns them. *)
Definition text (ls : list string) : list string :=
  map (fun s => String.append s eol) ls.

Definition leak_c : list string :=
  text [ "#include <stdlib.h>";
         EmptyString;
         "int fill(char *dst, int n);";
         EmptyString;
         "int work(int n) {";
         "    char *buf = malloc(n);";
         "    if (n > MAX_SIZE) {";
         "        return -1;";
         "    }";
         "    int rc = fill(buf, n);";
         "    return rc;";
         "}" ].

Definition lib_util_c : list string :=
  text [ "int helper(int a) {"; "    return a + 1;"; "}" ].

Definition test_util_c : list string :=
  text [ "// stub" ].

(** [/home/svf] holds [src/leak.c], [lib/util.c] and [test/util.c]. *)
Definition demo_fs : FS :=
  mkFS ["home"; "svf"]
       [ (["src"; "leak.c"], leak_c);
         (["lib"; "util.c"], lib_util_c);
         (["test"; "util.c"], test_util_c) ].

Definition demo_args : Args :=
  mkArgs "in.json" "out.json" "./" 5 true.

(** A record as [json.load] gives it: the four new keys are not there
    yet, and [init_keys] sets them whatever they are here. *)
Definition input_warning (dt : string) (loc : location) (func : string)
    (conds : list cond_path) : warning :=
  mkWarning dt loc func conds [] [] EmptyString EmptyString.

Definition input_cond (file : string) (line : Z) (bc : string) : cond_path :=
  mkCond (mkBranchLoc file line) bc None.

(** The line [x = "abc";]. *)
Definition quoted_line : string :=
  String.append "x = " (String dquote (String.append "abc" (String dquote ";"))).

(** ** Sample warnings *)

(** A never-free warning at line 10, column 8, of [leak.c]. *)
Definition warn_line10 : warning :=
  input_warning SVFTag.DefectType.NF (mkLocation "leak.c" 10 8) "work" [].

(** What the enricher makes of it with copy range 5. *)
Definition warn_line10_out : warning :=
  mkWarning SVFTag.DefectType.NF (mkLocation "src/leak.c" 10 8) "work" []
            ["rc"; "buf"; "n"]
            [ "int work(int n) {";
              "char *buf = malloc(n);";
              "if (n > MAX_SIZE) {";
              "return -1;";
              "}";
              "int rc = fill(buf, n);";
              "return rc;";
              "}" ]
            SVFTag.true TransformMessage.AC.

(** A never-free warning at line 13 of [leak.c], which has 12 lines. *)
Definition warn_line13 : warning :=
  input_warning SVFTag.DefectType.NF (mkLocation "leak.c" 13 1) "work" [].

(** A partial leak at line 6 of [leak.c] whose one conditional free
    path is in [gone.c], a file that is not in the tree. *)
Definition warn_gone : warning :=
  input_warning SVFTag.DefectType.PL (mkLocation "leak.c" 6 4) "work"
                [input_cond "gone.c" 1 "True"].

(** A partial leak at line 1 of [leak.c] whose conditional free path is
    at line 3 of [util.c]: there are two files of that name, and only
    [lib/util.c] has a third line. *)
Definition cond_util3 : cond_path := input_cond "util.c" 3 "True".

Definition warn_dup : warning :=
  input_warning SVFTag.DefectType.PL (mkLocation "leak.c" 1 0) "work"
                [cond_util3].

(** A partial leak with three conditional free paths, the second of
    which is in no file of the tree. *)
Definition warn_three : warning :=
  input_warning SVFTag.DefectType.PL (mkLocation "leak.c" 6 4) "work"
                [ input_cond "leak.c" 7 "True";
                  input_cond "gone.c" 1 "False";
                  input_cond "leak.c" 8 "True" ].

(** A never-free warning at line 2 of [util.c]: of the two files of
    that name only [lib/util.c] has a second line. *)
Definition warn_util : warning :=
  input_warning SVFTag.DefectType.NF (mkLocation "util.c" 2 1) "helper" [].

(** What the enricher makes of [warn_three] with copy range 5. *)
Definition warn_three_out : warning :=
  mkWarning SVFTag.DefectType.PL (mkLocation "src/leak.c" 6 4) "work"
            [ mkCond (mkBranchLoc "src/leak.c" 7) "True"
                     (Some "if (n > MAX_SIZE) {");
              input_cond "gone.c" 1 "False";
              mkCond (mkBranchLoc "src/leak.c" 8) "True" (Some "return -1;") ]
            ["buf"; "n"]
            [ "#include <stdlib.h>";
              EmptyString;
              "int fill(char *dst, int n);";
              EmptyString;
              "int work(int n) {";
              "char *buf = malloc(n);";
              "if (n > MAX_SIZE) {";
              "return -1;";
              "}";
              "int rc = fill(buf, n);";
              "return rc;" ]
            SVFTag.true TransformMessage.AC.

(** ** The resolver at line number 0 *)

(** What [deal_duplicate] keeps at line number 0, where [lines[ln - 1]]
    is the last line and [lines[:ln]] is empty: with no hint, the files
    whose last line has at least [column] characters; with a hint,
    nothing. *)
Definition kept_at_line0 (lines : list string) (column : Z) (hint : string)
    : bool :=
  negb (str_truthy hint)
  && match last lines with
     | Some s => column <=? str_len s
     | None => false
     end.

(** ** What the token pattern matches *)

(** A string that [C_VAR_NAME] matches as a whole: a character of the
    first class, then characters of the second class. *)
Definition is_name_match (l : list ascii) : bool :=
  match l with
  | [] => false
  | c :: r => name_head c && forallb name_tail r
  end.

(** ** What the enricher leaves alone *)

(** The keys of a conditional free path the enricher never writes. *)
Definition cond_kept (c c' : cond_path) : Prop :=
  BC c' = BC c /\ bln (BL c') = bln (BL c).

(** The keys of a warning the enricher never writes, and those of its
    conditional free paths, entry by entry. *)
Definition warning_kept (w w' : warning) : Prop :=
  DT w' = DT w /\ Func w' = Func w
  /\ ln (Loc w') = ln (Loc w) /\ cl (Loc w') = cl (Loc w)
  /\ Forall2 cond_kept (CFP w) (CFP w').

(** A never-free warning in [gone.c], a file that is not in the tree. *)
Definition warn_missing : warning :=
  input_warning SVFTag.DefectType.NF (mkLocation "gone.c" 3 1) "main" [].

Definition warn_missing_out : warning :=
  mkWarning SVFTag.DefectType.NF (mkLocation "gone.c" 3 1) "main" [] [] []
            SVFTag.false TransformMessage.NSF.

(** The entry [c] of a warning located at [loc] resolves to a file that
    ends before the line of the branch. *)
Definition cond_beyond (fs : FS) (loc : location) (c : cond_path) : Prop :=
  exists q, cond_resolution fs loc c = Ok q
            /\ Z.of_nat (length (lines_of fs q)) < bln (BL c).

(** A partial leak at line 6 of [leak.c] with a conditional free path at
    line 40 of [leak.c], which has 12 lines. *)
Definition warn_branch40 : warning :=
  input_warning SVFTag.DefectType.PL (mkLocation "leak.c" 6 4) "work"
                [ input_cond "leak.c" 7 "True"; input_cond "leak.c" 40 "False" ].

(** ** Console messages: [SRT_log] and the calls of the main program *)

(** The pieces of an f-string or of a chain of [+], joined. *)
Definition fstr (parts : list string) : string :=
  String.concat EmptyString parts.

(** [str(n)] for an [int]. *)
Definition str_of_int (n : Z) : string := NilZero.string_of_int (Z.to_int n).

Definition ESC : string := String "027"%char EmptyString.

(** The line [SRT_log] prints. *)
Definition SRT_log (success : bool) (msg : string) (error : string) : string :=
  if success then fstr [ESC; "[32m[SRT]"; ESC; "[0m "; msg]
  else if String.eqb error "warning"
  then fstr [ESC; "[33m[SRT Warning]"; ESC; "[0m "; msg]
  else if String.eqb error "fatal"
  then fstr [ESC; "[31m[SRT Fatal Error]"; ESC; "[0m "; msg]
  else fstr [ESC; "[31m[SRT]"; ESC; "[0m "; msg].

(** A file name between double quotes. *)
Definition quoted (name : string) : string :=
  String dquote (String.append name (String dquote EmptyString)).

(** The messages of the loop body, for the file name [svf_file] and the
    index [cnt] of the warning. *)
Definition msg_cannot_find (svf_file : string) (cnt : Z) : string :=
  fstr ["Cannot find file path of file "; quoted svf_file;
        " of warning "; str_of_int cnt; "."].

Definition msg_duplicated (svf_file : string) (cnt : Z) : string :=
  fstr ["Find duplicated file path of file "; quoted svf_file;
        " of warning "; str_of_int cnt; "."].

Definition msg_cond_no_match (svf_file : string) (cnt : Z) : string :=
  fstr ["Cannot find file path of file "; quoted svf_file;
        " of warning "; str_of_int cnt;
        " during conditional free path analysis."].

Definition msg_cond_duplicated (svf_file : string) (cnt : Z) : string :=
  fstr ["Find duplicated file path of file "; quoted svf_file;
        " of warning "; str_of_int cnt;
        " during conditional free ath analysis."].

Definition msg_cond_cannot_find (svf_file : string) (cnt : Z) : string :=
  fstr ["Cannot find file path of file "; quoted svf_file;
        " of warning "; str_of_int cnt;
        " during conditional free ath analysis."].

(** The loop body again, now with the lines it prints: each function
    returns the lines printed, in order, up to its return or to the
    exception, and the result. *)
Definition cond_body_log (fs : FS) (cnt : Z) (warn : warning) (cond : cond_path)
    : list string * exc (warning * cond_path) :=
  let l := bln (BL cond) in
  let svf_file := bfl (BL cond) in
  let ori_path := rglob fs svf_file in
  match ori_path with
  | [p] => ([], cond_excerpt fs warn (set_bfl cond (path_str p)) l p)
  | [] =>
      ([SRT_log false (msg_cond_no_match svf_file cnt) "warning"],
       Ret (set_status warn SVFTag.false TransformMessage.NSF, cond))
  | _ =>
      match deal_duplicate fs (ln (Loc warn)) (cl (Loc warn)) ori_path
                           EmptyString with
      | Raise e => ([], Raise e)
      | Ret r =>
          let flag := fst r in
          let src_file := snd r in
          if flag =? 1
          then ([SRT_log false (msg_cond_duplicated svf_file cnt) "warning"],
                Ret (set_status warn SVFTag.false TransformMessage.DFFIC, cond))
          else if flag =? -1
          then ([SRT_log false (msg_cond_cannot_find svf_file cnt) "warning"],
                Ret (set_status warn SVFTag.false TransformMessage.NSFIC, cond))
          else ([], match src_file with
                    | Some p => cond_excerpt fs warn cond l p
                    | None => Raise AttributeError
                    end)
      end
  end.

Fixpoint cond_loop_log (fs : FS) (cnt : Z) (warn : warning)
    (conds : list cond_path) : list string * exc (warning * list cond_path) :=
  match conds with
  | [] => ([], Ret (warn, []))
  | cond :: rest =>
      match cond_body_log fs cnt warn cond with
      | (out, Raise e) => (out, Raise e)
      | (out, Ret r) =>
          match cond_loop_log fs cnt (fst r) rest with
          | (out', Raise e) => (out ++ out', Raise e)
          | (out', Ret r') => (out ++ out', Ret (fst r', snd r :: snd r'))
          end
      end
  end.

Definition enrich_resolved_log (args : Args) (fs : FS) (cnt : Z)
    (warn : warning) (src_file : Path) : list string * exc warning :=
  let adir := absolute fs src_file in
  match open_readlines fs adir with
  | Raise e => ([], Raise e)
  | Ret lines =>
      let l := ln (Loc warn) in
      match py_index lines (l - 1) with
      | Raise e => ([], Raise e)
      | Ret line =>
          match name_filter line (finditer line) (cap_not_name args) with
          | Raise e => ([], Raise e)
          | Ret var_name =>
              let warn := set_V warn var_name in
              let lines :=
                py_slice lines (Z.max 0 (l - 1 - copy_range args))
                         (Z.min (Z.of_nat (length lines)) (l + copy_range args)) in
              let lines := (fun line => rstrip (lstrip line)) <$> lines in
              let warn := set_Code warn lines in
              if String.eqb (DT warn) SVFTag.DefectType.PL
              then
                match cond_loop_log fs cnt warn (CFP warn) with
                | (out, Raise e) => (out, Raise e)
                | (out, Ret r) =>
                    (out, Ret (set_status (set_CFP (fst r) (snd r))
                                          SVFTag.true TransformMessage.AC))
                end
              else ([], Ret (set_status warn SVFTag.true TransformMessage.AC))
          end
      end
  end.

Definition enrich_log (args : Args) (fs : FS) (cnt : Z) (warn : warning)
    : list string * exc warning :=
  let warn := init_keys warn in
  let svf_file := fl (Loc warn) in
  let ori_path := rglob fs svf_file in
  match ori_path with
  | [p] => enrich_resolved_log args fs cnt (set_fl warn (path_str p)) p
  | [] =>
      ([SRT_log false (msg_cannot_find svf_file cnt) "warning"],
       Ret (set_status warn SVFTag.false TransformMessage.NSF))
  | _ =>
      match deal_duplicate fs (ln (Loc warn)) (cl (Loc warn)) ori_path
                           (Func warn) with
      | Raise e => ([], Raise e)
      | Ret r =>
          let flag := fst r in
          let src_file := snd r in
          if flag =? 1
          then ([SRT_log false (msg_duplicated svf_file cnt) "warning"],
                Ret (set_status warn SVFTag.false TransformMessage.DFF))
          else if flag =? -1
          then ([SRT_log false (msg_cannot_find svf_file cnt) "warning"],
                Ret (set_status warn SVFTag.false TransformMessage.NSF))
          else match src_file with
               | Some p => enrich_resolved_log args fs cnt warn p
               | None => ([], Raise AttributeError)
               end
      end
  end.

(** [for warn in report], with [cnt] the counter before the loop body
    adds 1 to it. *)
Fixpoint run_log (args : Args) (fs : FS) (cnt : Z) (report : list warning)
    : list string * exc (list warning) :=
  match report with
  | [] => ([], Ret [])
  | warn :: report' =>
      let cnt := cnt + 1 in
      match enrich_log args fs cnt warn with
      | (out, Raise e) => (out, Raise e)
      | (out, Ret warn') =>
          match run_log args fs cnt report' with
          | (out', Raise e) => (out ++ out', Raise e)
          | (out', Ret rest) => (out ++ out', Ret (warn' :: rest))
          end
      end
  end.

(** The main program on the report [json.load] returned: every line
    printed, and the report written. *)
Definition main_log (args : Args) (fs : FS) (report : list warning)
    : list string * exc (list warning) :=
  let hello :=
    [ SRT_log true "SVF Report Transformer" EmptyString;
      SRT_log true (String.append "Successfully loaded JSON file: "
                                  (input_file args)) EmptyString;
      SRT_log true (fstr ["There are ";
                          str_of_int (Z.of_nat (length report));
                          " warnings in this report."]) EmptyString ] in
  match run_log args fs (-1) report with
  | (out, Raise e) => (hello ++ out, Raise e)
  | (out, Ret written) =>
      (hello ++ out
       ++ [SRT_log true (String.append "Successfully dumped JSON output: "
                                       (output_file args)) EmptyString],
       Ret written)
  end.

(** The lines the specification expects for a conditional free path and
    for a record, from what their files resolve to. *)
Definition cond_messages (fs : FS) (loc : location) (cnt : Z) (c : cond_path)
    : list string :=
  match cond_resolution fs loc c with
  | Ok _ => []
  | Ambiguous =>
      [SRT_log false (msg_cond_duplicated (bfl (BL c)) cnt) "warning"]
  | NotFound =>
      match rglob fs (bfl (BL c)) with
      | [] => [SRT_log false (msg_cond_no_match (bfl (BL c)) cnt) "warning"]
      | _ => [SRT_log false (msg_cond_cannot_find (bfl (BL c)) cnt) "warning"]
      end
  end.

Definition record_messages (fs : FS) (cnt : Z) (w : warning) : list string :=
  match primary_resolution fs w with
  | NotFound => [SRT_log false (msg_cannot_find (fl (Loc w)) cnt) "warning"]
  | Ambiguous => [SRT_log false (msg_duplicated (fl (Loc w)) cnt) "warning"]
  | Ok _ =>
      if String.eqb (DT w) SVFTag.DefectType.PL
      then flat_map (cond_messages fs (Loc w) cnt) (CFP w)
      else []
  end.

(** The entry [c] of a warning located at [loc] does not resolve. *)
Definition unresolved (fs : FS) (loc : location) (c : cond_path) : bool :=
  match cond_resolution fs loc c with
  | Ok _ => false
  | Ambiguous | NotFound => true
  end.

(** A line the loop body prints through [SRT_log] as a warning. *)
Definition is_warning_line (line : string) : Prop :=
  exists msg, line = SRT_log false msg "warning".

(** The three lines printed before the loop and the line printed after
    the report is written. *)
Definition hello_lines (args : Args) (report : list warning) : list string :=
  [ SRT_log true "SVF Report Transformer" EmptyString;
    SRT_log true (String.append "Successfully loaded JSON file: "
                                (input_file args)) EmptyString;
    SRT_log true (fstr ["There are ";
                        str_of_int (Z.of_nat (length report));
                        " warnings in this report."]) EmptyString ].

Definition dumped_line (args : Args) : string :=
  SRT_log true (String.append "Successfully dumped JSON output: "
                              (output_file args)) EmptyString.

(** ** The neighbours of a match *)

(** The first test of the filter on the character before a match, if
    there is one, and the character after it, if there is one. *)
Definition neighbour_excludes (before after : option ascii) : bool :=
  match before with
  | Some c => Ascii.eqb c "'" || Ascii.eqb c dquote || Ascii.eqb c ")"
  | None => false
  end
  || match after with
     | Some c => Ascii.eqb c "'" || Ascii.eqb c dquote || Ascii.eqb c "("
     | None => false
     end.

(** A never-free warning reported at line 0 of [leak.c]. *)
Definition warn_line0 : warning :=
  input_warning SVFTag.DefectType.NF (mkLocation "leak.c" 0 0) "work" [].

(** * Properties *)

(** ** Indexing and slicing *)

Lemma bind_Ret_inv {A B : Type} (m : exc A) (k : A -> exc B) (b : B) :
  m ≫= k = Ret b -> exists a, m = Ret a /\ k a = Ret b.
Proof. destruct m as [a|e]; simpl; intros H; [eauto | discriminate]. Qed.

Lemma py_index_Ret {A : Type} (l : list A) (i : Z) (x : A) :
  0 <= i -> l !! Z.to_nat i = Some x -> py_index l i = Ret x.
Proof.
  intros Hi Hx. unfold py_index.
  pose proof (lookup_lt_Some _ _ _ Hx) as Hlt.
  destruct (Z.ltb_spec i 0); [lia|].
  destruct (Z.ltb_spec i 0); [lia|].
  destruct (Z.leb_spec (Z.of_nat (length l)) i); [lia|].
  simpl. now rewrite Hx.
Qed.

Lemma py_index_ge {A : Type} (l : list A) (i : Z) :
  Z.of_nat (length l) <= i -> py_index l i = Raise IndexError.
Proof.
  intros Hi. unfold py_index.
  destruct (Z.ltb_spec i 0); [lia|].
  destruct (Z.ltb_spec i 0); [lia|].
  destruct (Z.leb_spec (Z.of_nat (length l)) i); [reflexivity|lia].
Qed.

Lemma py_index_Ret_inv {A : Type} (l : list A) (i : Z) (x : A) :
  0 <= i -> py_index l i = Ret x ->
  i < Z.of_nat (length l) /\ l !! Z.to_nat i = Some x.
Proof.
  intros Hi. unfold py_index.
  destruct (Z.ltb_spec i 0); [lia|].
  destruct (Z.ltb_spec i 0); [lia|].
  destruct (Z.leb_spec (Z.of_nat (length l)) i); simpl; [discriminate|].
  destruct (l !! Z.to_nat i) eqn:E; [|discriminate].
  intros [= ->]. split; [lia | reflexivity].
Qed.

Lemma py_index_total {A : Type} (l : list A) (i : Z) :
  0 <= i < Z.of_nat (length l) -> exists x, py_index l i = Ret x.
Proof.
  intros Hi. destruct (lookup_lt_is_Some_2 l (Z.to_nat i)) as [x Hx]; [lia|].
  exists x. apply py_index_Ret; [lia | exact Hx].
Qed.

Lemma py_clamp_nonneg (n i : Z) : 0 <= i -> py_clamp n i = Z.min i n.
Proof. intros Hi. unfold py_clamp. destruct (Z.ltb_spec i 0); [lia | reflexivity]. Qed.

Lemma py_slice_prefix {A : Type} (l : list A) (b : Z) :
  0 <= b -> py_slice l 0 b = take (Z.to_nat b) l.
Proof.
  intros Hb. unfold py_slice. rewrite !py_clamp_nonneg by lia.
  replace (Z.min 0 (Z.of_nat (length l))) with 0 by lia.
  rewrite Z.sub_0_r. simpl. rewrite drop_0.
  destruct (Z.le_ge_cases b (Z.of_nat (length l))).
  - now rewrite Z.min_l.
  - rewrite Z.min_r by lia. rewrite Nat2Z.id.
    rewrite !take_ge; [reflexivity | lia | lia].
Qed.

(** ** Files the search returns can be opened *)

Lemma find_file_total (adir : string) (cwd0 : Path) (fl0 : list (Path * list string))
    (p : Path) :
  In p (map fst fl0) ->
  adir = String.append "/" (String.concat "/" (cwd0 ++ p)) ->
  exists lines, find_file adir cwd0 fl0 = Ret lines.
Proof.
  intros Hin ->.
  induction fl0 as [|[q ls] fl0 IH]; cbn [find_file map fst In] in *;
    [contradiction|].
  destruct (String.eqb_spec
              (String.append "/" (String.concat "/" (cwd0 ++ q)))
              (String.append "/" (String.concat "/" (cwd0 ++ p)))) as [_|Hne].
  - eauto.
  - destruct Hin as [->|Hin]; [contradiction | auto].
Qed.

Lemma rglob_In (fs : FS) (name : string) (p : Path) :
  In p (rglob fs name) -> In p (map fst (files fs)) /\ path_name p = name.
Proof.
  unfold rglob. rewrite filter_In. intros [H1 H2]. split; [exact H1|].
  now apply String.eqb_eq.
Qed.

(** ** The resolver *)

Lemma lines_of_open (fs : FS) (p : Path) :
  In p (map fst (files fs)) ->
  open_readlines fs (absolute fs p) = Ret (lines_of fs p).
Proof.
  intros Hin. unfold lines_of.
  destruct (find_file_total (absolute fs p) (cwd fs) (files fs) p Hin eq_refl)
    as [lines Hl].
  unfold open_readlines. now rewrite Hl.
Qed.

Lemma existsb_forallb_negb {A : Type} (f : A -> bool) (l : list A) :
  negb (existsb f l) = forallb (fun x => negb (f x)) l.
Proof.
  induction l as [|x l IH]; simpl; [reflexivity|].
  rewrite negb_orb. now rewrite IH.
Qed.

Lemma deal_duplicate_loop_spec (fs : FS) (line column : Z) (hint : string)
    (cands res : list Path) :
  1 <= line ->
  Forall (fun p => In p (map fst (files fs))) cands ->
  deal_duplicate_loop fs line column cands hint res
  = Ret (res ++ remaining fs line column cands hint).
Proof.
  intros Hline Hall. revert res.
  induction Hall as [|p cands Hp Hall IH]; intros res; simpl.
  - unfold remaining. simpl. now rewrite app_nil_r.
  - rewrite (lines_of_open fs p Hp). simpl.
    unfold remaining. simpl. unfold rejected at 1.
    fold (remaining fs line column cands hint).
    set (lines := lines_of fs p).
    destruct (Z.ltb_spec (Z.of_nat (length lines)) line) as [Hlt|Hge]; simpl.
    { apply IH. }
    destruct (py_index_total lines (line - 1)) as [s Hs]; [lia|].
    rewrite Hs. simpl.
    apply py_index_Ret_inv in Hs as [_ Hs]; [|lia]. rewrite Hs.
    destruct (Z.ltb_spec (str_len s) column); simpl.
    { apply IH. }
    rewrite py_slice_prefix by lia.
    rewrite <- existsb_forallb_negb.
    destruct (str_truthy hint); simpl.
    + destruct (existsb (str_contains hint) (take (Z.to_nat line) lines)); simpl.
      * rewrite IH. now rewrite <- app_assoc.
      * apply IH.
    + rewrite IH. now rewrite <- app_assoc.
Qed.

Lemma deal_duplicate_spec (fs : FS) (line column : Z) (hint : string)
    (cands : list Path) :
  1 <= line ->
  Forall (fun p => In p (map fst (files fs))) cands ->
  deal_duplicate fs line column cands hint
  = Ret (as_tuple (classify (remaining fs line column cands hint))).
Proof.
  intros Hline Hall. unfold deal_duplicate.
  rewrite (deal_duplicate_loop_spec fs line column hint cands [] Hline Hall).
  simpl. destruct (remaining fs line column cands hint) as [|p [|q r]]; reflexivity.
Qed.

(** ** The lexical filter *)

Lemma str_in_spec (x : string) (xs : list string) :
  str_in x xs = true <-> x ∈ xs.
Proof.
  unfold str_in. rewrite existsb_exists, list_elem_of_In. split.
  - intros [y [Hy Heq]]. apply String.eqb_eq in Heq. now subst.
  - intros Hx. exists x. split; [exact Hx | apply String.eqb_refl].
Qed.

Lemma str_in_false (x : string) (xs : list string) :
  str_in x xs = false <-> x ∉ xs.
Proof.
  rewrite <- str_in_spec. destruct (str_in x xs); split; congruence.
Qed.

Lemma length_chars (s : string) : length (chars s) = String.length s.
Proof. induction s as [|c s IH]; simpl; [reflexivity | now rewrite IH]. Qed.

Lemma name_filter_loop_inv (lstr : string) (cap : bool) (it : list (Z * Z))
    (res out : list string) :
  name_filter_loop lstr it cap res = Ret out ->
  NoDup res ->
  NoDup out /\
  exists extra,
    out = res ++ extra /\
    sublist extra (span_texts lstr it) /\
    Forall (fun t => (t ∉ C_CPP_KEYWORDS) /\
                     (cap = true -> are_all_letters_uppercase t = false)) extra.
Proof.
  revert res. induction it as [|[start end_] it IH]; intros res Hrun Hnd.
  - simpl in Hrun. injection Hrun as <-. split; [exact Hnd|].
    exists []. rewrite app_nil_r. repeat split; constructor.
  - cbn [name_filter_loop] in Hrun.
    apply bind_Ret_inv in Hrun as [skip [_ Hrun]].
    destruct skip.
    + destruct (IH _ Hrun Hnd) as [Hout [extra [-> [Hsub Hall]]]].
      split; [exact Hout|]. exists extra. repeat split; [|exact Hall].
      now apply sublist_cons.
    + set (tok := str_slice lstr start end_) in *.
      destruct (str_in tok res) eqn:Hres; cbn [negb andb] in Hrun.
      { destruct (IH _ Hrun Hnd) as [Hout [extra [-> [Hsub Hall]]]].
        split; [exact Hout|]. exists extra. repeat split; [|exact Hall].
        now apply sublist_cons. }
      destruct (str_in tok C_CPP_KEYWORDS) eqn:Hkw; cbn [negb andb] in Hrun.
      { destruct (IH _ Hrun Hnd) as [Hout [extra [-> [Hsub Hall]]]].
        split; [exact Hout|]. exists extra. repeat split; [|exact Hall].
        now apply sublist_cons. }
      destruct (negb (are_all_letters_uppercase tok) || negb cap) eqn:Hcap.
      * apply str_in_false in Hres. apply str_in_false in Hkw.
        assert (Hnd' : NoDup (res ++ [tok])).
        { apply NoDup_app. repeat split; [exact Hnd| |apply NoDup_singleton].
          intros x Hx Hx'. apply list_elem_of_singleton in Hx'. now subst. }
        destruct (IH _ Hrun Hnd') as [Hout [extra [-> [Hsub Hall]]]].
        split; [exact Hout|]. exists (tok :: extra).
        rewrite <- app_assoc. repeat split.
        -- now apply sublist_skip.
        -- constructor; [|exact Hall]. split; [exact Hkw|].
           intros ->. rewrite orb_false_r in Hcap.
           now apply negb_true_iff in Hcap.
      * destruct (IH _ Hrun Hnd) as [Hout [extra [-> [Hsub Hall]]]].
        split; [exact Hout|]. exists extra. repeat split; [|exact Hall].
        now apply sublist_cons.
Qed.

Lemma name_filter_loop_keeps (lstr : string) (cap : bool) (it : list (Z * Z))
    (res out : list string) :
  name_filter_loop lstr it cap res = Ret out ->
  (forall t, t ∈ res -> t ∈ out) /\
  (forall start end_,
      (start, end_) ∈ it ->
      name_excluded lstr start end_ = Ret false ->
      str_slice lstr start end_ ∉ C_CPP_KEYWORDS ->
      are_all_letters_uppercase (str_slice lstr start end_) = false
      \/ cap = false ->
      str_slice lstr start end_ ∈ out).
Proof.
  revert res. induction it as [|[s0 e0] it IH]; intros res Hrun.
  - injection Hrun as <-. split; [auto|].
    intros ? ? Hin. now apply not_elem_of_nil in Hin.
  - cbn [name_filter_loop] in Hrun.
    apply bind_Ret_inv in Hrun as [skip [Hskip Hrun]].
    set (tok := str_slice lstr s0 e0) in *.
    assert (Hnext : exists res',
               name_filter_loop lstr it cap res' = Ret out
               /\ (forall t, t ∈ res -> t ∈ res')
               /\ (skip = false -> tok ∉ C_CPP_KEYWORDS ->
                   are_all_letters_uppercase tok = false \/ cap = false ->
                   tok ∈ res')).
    { destruct skip.
      - exists res. repeat split; [exact Hrun | auto | discriminate].
      - destruct (str_in tok res) eqn:Hres; cbn [negb andb] in Hrun.
        { exists res. repeat split; [exact Hrun | auto |].
          intros _ _ _. now apply str_in_spec. }
        destruct (str_in tok C_CPP_KEYWORDS) eqn:Hkw; cbn [negb andb] in Hrun.
        { exists res. repeat split; [exact Hrun | auto |].
          intros _ Hn _. now apply str_in_spec in Hkw. }
        destruct (negb (are_all_letters_uppercase tok) || negb cap) eqn:Hcap.
        + exists (res ++ [tok]). repeat split; [exact Hrun | |].
          * intros t Ht. apply elem_of_app. now left.
          * intros _ _ _. apply elem_of_app. right.
            now apply list_elem_of_singleton.
        + exists res. repeat split; [exact Hrun | auto |].
          apply orb_false_iff in Hcap as [Hu Hc].
          apply negb_false_iff in Hu, Hc.
          intros _ _ [Hu'|Hc']; congruence. }
    destruct Hnext as (res' & Hrun' & Hsub & Hkeep).
    destruct (IH _ Hrun') as (Hres' & Hit).
    split; [auto|].
    intros start end_ Hin Hex Hkw Hc.
    apply elem_of_cons in Hin as [[= -> ->]|Hin]; [|now apply Hit].
    apply Hres'. apply Hkeep; [congruence | exact Hkw | exact Hc].
Qed.

Lemma char_is_total (lstr : string) (i : Z) (ch : ascii) :
  0 <= i < str_len lstr -> exists b, char_is lstr i ch = Ret b.
Proof.
  intros Hi. unfold char_is, str_index.
  destruct (py_index_total (chars lstr) i) as [x Hx].
  { rewrite length_chars. exact Hi. }
  rewrite Hx. simpl. eauto.
Qed.

Lemma exc_or_total (a b : exc bool) :
  (exists x, a = Ret x) -> (exists y, b = Ret y) -> exists z, exc_or a b = Ret z.
Proof.
  intros [x ->] [y ->]. unfold exc_or. simpl. destruct x; eauto.
Qed.

Lemma name_excluded_total (lstr : string) (start end_ : Z) :
  1 <= str_len lstr -> start <= str_len lstr -> 0 <= end_ ->
  exists b, name_excluded lstr start end_ = Ret b.
Proof.
  intros Hlen Hs He. unfold name_excluded.
  repeat apply exc_or_total; apply char_is_total; lia.
Qed.

Lemma name_filter_loop_total (lstr : string) (cap : bool) (it : list (Z * Z))
    (res : list string) :
  1 <= str_len lstr ->
  Forall (fun se => fst se <= str_len lstr /\ 0 <= snd se) it ->
  exists out, name_filter_loop lstr it cap res = Ret out.
Proof.
  intros Hlen Hall. revert res.
  induction Hall as [|[start end_] it [Hs He] Hall IH]; intros res.
  - simpl. eauto.
  - cbn [name_filter_loop].
    destruct (name_excluded_total lstr start end_ Hlen Hs He) as [skip ->].
    simpl. destruct skip; [apply IH|].
    match goal with |- context [if ?c then _ else _] => destruct c end; apply IH.
Qed.

Lemma scan_names_bounds (s : list ascii) (pos : Z) (cur : option Z) :
  0 <= pos ->
  (forall start, cur = Some start -> 0 <= start <= pos) ->
  Forall (fun se => 0 <= fst se /\ fst se <= snd se
                    /\ snd se <= pos + Z.of_nat (length s))
         (scan_names s pos cur).
Proof.
  revert pos cur. induction s as [|c s IH]; intros pos cur Hpos Hcur.
  - simpl. destruct cur as [start|]; [|constructor].
    specialize (Hcur start eq_refl). constructor; [simpl; lia | constructor].
  - cbn [scan_names]. cbn [length]. destruct cur as [start|].
    + specialize (Hcur start eq_refl). destruct (name_tail c).
      * eapply Forall_impl; [apply IH; [lia|]|].
        { intros st [= <-]. lia. }
        intros [a b]; simpl; lia.
      * constructor; [simpl; lia|].
        eapply Forall_impl; [apply IH; [lia|]|].
        { intros st [=]. }
        intros [a b]; simpl; lia.
    + destruct (name_head c).
      * eapply Forall_impl; [apply IH; [lia|]|].
        { intros st [= <-]. lia. }
        intros [a b]; simpl; lia.
      * eapply Forall_impl; [apply IH; [lia|]|].
        { intros st [=]. }
        intros [a b]; simpl; lia.
Qed.

Lemma name_filter_finditer_total (line : string) (cap : bool) :
  exists out, name_filter line (finditer line) cap = Ret out.
Proof.
  unfold name_filter, finditer.
  destruct line as [|c line].
  - simpl. eauto.
  - apply name_filter_loop_total.
    + unfold str_len. simpl. lia.
    + eapply Forall_impl.
      * apply scan_names_bounds; [lia | intros st [=]].
      * intros [a b]. simpl. rewrite length_chars. unfold str_len. simpl. lia.
Qed.

(** ** The excerpt window *)

Lemma excerpt_window {A : Type} (lines : list A) (L R : Z) :
  1 <= L -> 0 <= R ->
  let n := Z.of_nat (length lines) in
  let lo := Z.max 1 (L - R) in
  let hi := Z.min n (L + R) in
  let ex := py_slice lines (Z.max 0 (L - 1 - R)) (Z.min n (L + R)) in
  Z.of_nat (length ex) = Z.max 0 (hi - lo + 1) /\
  forall k, lo <= k <= hi -> ex !! Z.to_nat (k - lo) = lines !! Z.to_nat (k - 1).
Proof.
  intros HL HR n lo hi ex. subst ex. unfold py_slice. fold n.
  rewrite !py_clamp_nonneg by lia.
  split.
  - rewrite length_take, length_drop. subst lo hi. lia.
  - intros k Hk. subst lo hi.
    rewrite lookup_take_lt by lia.
    rewrite lookup_drop. f_equal. lia.
Qed.

(** ** The loop over the conditional free paths *)

Lemma same_payload_refl (w : warning) : same_payload w w.
Proof. repeat split. Qed.

Lemma same_payload_status (w : warning) (flag msg : string) :
  same_payload w (set_status w flag msg).
Proof. repeat split. Qed.

Lemma same_payload_trans (w1 w2 w3 : warning) :
  same_payload w1 w2 -> same_payload w2 w3 -> same_payload w1 w3.
Proof.
  unfold same_payload. intros (?&?&?&?&?&?) (?&?&?&?&?&?).
  repeat split; congruence.
Qed.

Lemma cond_excerpt_inv (fs : FS) (w w' : warning) (c c' : cond_path) (l : Z)
    (p : Path) :
  cond_excerpt fs w c l p = Ret (w', c') ->
  w' = w /\
  exists lines x, open_readlines fs (absolute fs p) = Ret lines
                  /\ py_index lines (l - 1) = Ret x
                  /\ c' = set_BCode c (strip x).
Proof.
  unfold cond_excerpt. intros H.
  apply bind_Ret_inv in H as [lines [Hopen H]].
  apply bind_Ret_inv in H as [x [Hx H]].
  injection H as <- <-. split; [reflexivity|]. eauto.
Qed.

Lemma cond_body_payload (fs : FS) (w w' : warning) (c c' : cond_path) :
  cond_body fs w c = Ret (w', c') -> same_payload w w'.
Proof.
  unfold cond_body. intros H.
  destruct (rglob fs (bfl (BL c))) as [|p [|q cands]].
  - injection H as <- <-. apply same_payload_status.
  - apply cond_excerpt_inv in H as [-> _]. apply same_payload_refl.
  - apply bind_Ret_inv in H as [[flag src] [_ H]]. cbn [fst snd] in H.
    destruct (flag =? 1); [injection H as <- <-; apply same_payload_status|].
    destruct (flag =? -1); [injection H as <- <-; apply same_payload_status|].
    destruct src as [p'|]; [|discriminate].
    apply cond_excerpt_inv in H as [-> _]. apply same_payload_refl.
Qed.

Lemma cond_loop_payload (fs : FS) (conds conds' : list cond_path)
    (w w' : warning) :
  cond_loop fs w conds = Ret (w', conds') -> same_payload w w'.
Proof.
  revert w w' conds'. induction conds as [|c conds IH]; intros w w' conds' H.
  - injection H as <- <-. apply same_payload_refl.
  - cbn [cond_loop] in H.
    apply bind_Ret_inv in H as [[w1 c1] [Hbody H]].
    apply bind_Ret_inv in H as [[w2 cs2] [Hloop H]].
    cbn [fst snd] in *. injection H as <- <-.
    eapply same_payload_trans;
      [eapply cond_body_payload | eapply IH]; eassumption.
Qed.

Lemma rglob_Forall (fs : FS) (name : string) :
  Forall (fun p => In p (map fst (files fs))) (rglob fs name).
Proof.
  apply List.Forall_forall. intros p Hp. now apply rglob_In in Hp.
Qed.

Lemma lines_of_Ret (fs : FS) (p : Path) (lines : list string) :
  open_readlines fs (absolute fs p) = Ret lines -> lines_of fs p = lines.
Proof. intros H. unfold lines_of. now rewrite H. Qed.

Lemma cond_body_outcome (fs : FS) (w w' : warning) (c c' : cond_path) :
  1 <= ln (Loc w) ->
  cond_body fs w c = Ret (w', c') ->
  cond_outcome fs (Loc w) c c'.
Proof.
  intros Hln H. unfold cond_outcome, cond_resolution.
  unfold cond_body in H.
  pose proof (rglob_Forall fs (bfl (BL c))) as Hall.
  destruct (rglob fs (bfl (BL c))) as [|p [|q cands]].
  - now injection H as <- <-.
  - apply cond_excerpt_inv in H as [_ (lines & x & Hopen & Hx & ->)].
    rewrite (lines_of_Ret _ _ _ Hopen). exists x. repeat split; auto.
  - rewrite (deal_duplicate_spec _ _ _ _ _ Hln Hall) in H.
    cbn [mbind exc_bind] in H.
    destruct (classify (remaining fs (ln (Loc w)) (cl (Loc w)) (p :: q :: cands)
                                  EmptyString)) as [p'| |];
      cbn [as_tuple fst snd] in H.
    + change (0 =? 1) with false in H. change (0 =? -1) with false in H.
      cbv iota in H.
      apply cond_excerpt_inv in H as [_ (lines & x & Hopen & Hx & ->)].
      rewrite (lines_of_Ret _ _ _ Hopen). exists x. repeat split; auto.
      intros [=].
    + now injection H as <- <-.
    + now injection H as <- <-.
Qed.

Lemma cond_loop_outcome (fs : FS) (conds conds' : list cond_path)
    (w w' : warning) :
  1 <= ln (Loc w) ->
  cond_loop fs w conds = Ret (w', conds') ->
  Forall2 (cond_outcome fs (Loc w)) conds conds'.
Proof.
  revert w w' conds'. induction conds as [|c conds IH]; intros w w' conds' Hln H.
  - injection H as <- <-. constructor.
  - cbn [cond_loop] in H.
    apply bind_Ret_inv in H as [[w1 c1] [Hbody H]].
    apply bind_Ret_inv in H as [[w2 cs2] [Hloop H]].
    cbn [fst snd] in *. injection H as <- <-.
    pose proof (cond_body_payload _ _ _ _ _ Hbody) as (_ & HLoc & _).
    constructor.
    + eapply cond_body_outcome; eassumption.
    + rewrite <- HLoc. eapply IH; [|eassumption]. now rewrite HLoc.
Qed.

(** ** The loop body *)

Lemma deal_duplicate_loop_In (fs : FS) (l c : Z) (hint : string)
    (cands res out : list Path) :
  deal_duplicate_loop fs l c cands hint res = Ret out ->
  forall p, In p out -> In p res \/ In p cands.
Proof.
  revert res. induction cands as [|f cands IH]; intros res H p Hp.
  - injection H as <-. now left.
  - cbn [deal_duplicate_loop] in H.
    apply bind_Ret_inv in H as [lines [_ H]].
    assert (Hres : deal_duplicate_loop fs l c cands hint res = Ret out ->
                   In p res \/ In p (f :: cands)).
    { intros H'. destruct (IH _ H' p Hp); [now left | right; now right]. }
    assert (Happ : deal_duplicate_loop fs l c cands hint (res ++ [f]) = Ret out ->
                   In p res \/ In p (f :: cands)).
    { intros H'. destruct (IH _ H' p Hp) as [Hin|Hin]; [|right; now right].
      apply in_app_or in Hin as [Hin|[<-|[]]]; [now left | right; now left]. }
    destruct (Z.of_nat (length lines) <? l); [auto|].
    apply bind_Ret_inv in H as [line [_ H]].
    destruct (str_len line <? c); [auto|].
    destruct (str_truthy hint); [|auto].
    destruct (negb _); auto.
Qed.

Lemma deal_duplicate_In (fs : FS) (l c : Z) (hint : string) (cands : list Path)
    (flag : Z) (p : Path) :
  deal_duplicate fs l c cands hint = Ret (flag, Some p) -> In p cands.
Proof.
  unfold deal_duplicate. intros H.
  apply bind_Ret_inv in H as [res [Hloop H]].
  destruct (1 <? length res)%nat; [discriminate|].
  destruct (length res =? 1)%nat; [|discriminate].
  injection H as _ H.
  destruct (deal_duplicate_loop_In _ _ _ _ _ _ _ Hloop p) as [[]|Hin];
    [|exact Hin].
  apply list_elem_of_In. eapply list_elem_of_lookup_2. exact H.
Qed.

Lemma enrich_resolved_fields (args : Args) (fs : FS) (w w' : warning)
    (p : Path) :
  enrich_resolved args fs w p = Ret w' ->
  exists lines line names,
    open_readlines fs (absolute fs p) = Ret lines
    /\ py_index lines (ln (Loc w) - 1) = Ret line
    /\ name_filter line (finditer line) (cap_not_name args) = Ret names
    /\ Flag w' = SVFTag.true /\ Msg w' = TransformMessage.AC
    /\ DT w' = DT w /\ Loc w' = Loc w /\ Func w' = Func w
    /\ V w' = names
    /\ Code w' = strip <$> py_slice lines
                   (Z.max 0 (ln (Loc w) - 1 - copy_range args))
                   (Z.min (Z.of_nat (length lines)) (ln (Loc w) + copy_range args))
    /\ (DT w <> SVFTag.DefectType.PL -> CFP w' = CFP w)
    /\ (DT w = SVFTag.DefectType.PL -> 1 <= ln (Loc w) ->
        Forall2 (cond_outcome fs (Loc w)) (CFP w) (CFP w')).
Proof.
  unfold enrich_resolved. intros H.
  apply bind_Ret_inv in H as [lines [Hopen H]].
  apply bind_Ret_inv in H as [line [Hline H]].
  apply bind_Ret_inv in H as [names [Hnames H]].
  apply bind_Ret_inv in H as [wl [Hwl H]].
  injection H as <-.
  exists lines, line, names.
  cbn [DT set_Code set_V] in Hwl.
  destruct (String.eqb_spec (DT w) SVFTag.DefectType.PL) as [HPL|HPL].
  - apply bind_Ret_inv in Hwl as [[wst conds'] [Hloop Hwl]].
    cbn [fst snd] in Hwl. injection Hwl as <-.
    pose proof (cond_loop_payload _ _ _ _ _ Hloop) as (HDT & HLoc & HFunc & _ & HV & HCode).
    cbn in HDT, HLoc, HFunc, HV, HCode.
    repeat split; cbn; try assumption; try reflexivity.
    + intros Hne. contradiction.
    + intros _ Hln. apply cond_loop_outcome in Hloop; [exact Hloop | exact Hln].
  - injection Hwl as <-.
    repeat split; cbn; try assumption; try reflexivity.
    intros HPL'. contradiction.
Qed.

Lemma enrich_inv (args : Args) (fs : FS) (w w' : warning) :
  enrich args fs w = Ret w' ->
  (Flag w' = SVFTag.false
   /\ (Msg w' = TransformMessage.NSF \/ Msg w' = TransformMessage.DFF)
   /\ same_payload (init_keys w) w')
  \/ (exists p w1,
        In p (rglob fs (fl (Loc w)))
        /\ (w1 = init_keys w \/ w1 = set_fl (init_keys w) (path_str p))
        /\ enrich_resolved args fs w1 p = Ret w').
Proof.
  unfold enrich. cbn [Loc init_keys fl ln cl Func].
  intros H.
  destruct (rglob fs (fl (Loc w))) as [|p [|q cands]] eqn:Hglob.
  - injection H as <-. left. repeat split. now left.
  - right. exists p, (set_fl (init_keys w) (path_str p)).
    repeat split; [now left | now right | exact H].
  - apply bind_Ret_inv in H as [[flag src] [Hdd H]]. cbn [fst snd] in H.
    destruct (flag =? 1).
    { injection H as <-. left. repeat split. now right. }
    destruct (flag =? -1).
    { injection H as <-. left. repeat split. now left. }
    destruct src as [p'|]; [|discriminate].
    right. exists p', (init_keys w). repeat split; [|now left|exact H].
    eapply deal_duplicate_In. exact Hdd.
Qed.

(** ** The definitions on sample inputs *)

Example py_slice_negative_stop : py_slice [1; 2; 3; 4; 5] 2 (-1) = [3; 4].
Proof. reflexivity. Qed.

Example py_index_last : py_index [1; 2; 3; 4; 5] (-1) = Ret 5.
Proof. reflexivity. Qed.

Example py_index_beyond : py_index [1; 2; 3; 4; 5] 5 = Raise IndexError.
Proof. reflexivity. Qed.

Example finditer_member_access :
  finditer "p->q[3].x = foo(9ab, (int)y);"
  = [(0, 1); (3, 9); (12, 15); (17, 19); (22, 25); (26, 27)].
Proof. reflexivity. Qed.

Example name_filter_member_access :
  name_filter "p->q[3].x = foo(9ab, (int)y);"
              (finditer "p->q[3].x = foo(9ab, (int)y);") true
  = Ret ["p"; "q[3].x"; "ab"].
Proof. reflexivity. Qed.

Example name_filter_quoted :
  name_filter quoted_line (finditer quoted_line) true = Ret ["x"].
Proof. reflexivity. Qed.

Example name_filter_all_caps_on :
  name_filter "MAX_SIZE + count" (finditer "MAX_SIZE + count") true
  = Ret ["count"].
Proof. reflexivity. Qed.

Example name_filter_all_caps_off :
  name_filter "MAX_SIZE + count" (finditer "MAX_SIZE + count") false
  = Ret ["MAX_SIZE"; "count"].
Proof. reflexivity. Qed.

Example name_filter_empty_line_bad_span :
  name_filter EmptyString [(0, 0)] true = Raise IndexError.
Proof. reflexivity. Qed.

Example strip_sample : strip "   a b  " = "a b".
Proof. reflexivity. Qed.

Example rglob_util : rglob demo_fs "util.c" = [["lib"; "util.c"]; ["test"; "util.c"]].
Proof. reflexivity. Qed.

Example enrich_line10 : enrich demo_args demo_fs warn_line10 = Ret warn_line10_out.
Proof. reflexivity. Qed.

(** * Main results *)

(** C6.  For a line number [line] (at least 1), a column, a list of
    candidate files of the tree and a hint, [deal_duplicate] keeps
    exactly the candidates that are not rejected, where a candidate is
    rejected when it has fewer than [line] lines, when its [line]-th
    line is shorter than [column] characters, or when the hint is not
    empty and none of its first [line] lines contains it.  It returns
    [(-1, None)] (not found) when none is kept, [(0, p)] (resolved) when
    [p] alone is kept and [(1, None)] (ambiguous) when several are. *)
Theorem deal_duplicate_outcome (fs : FS) (line column : Z) (cands : list Path)
    (hint : string) :
  1 <= line ->
  Forall (fun p => In p (map fst (files fs))) cands ->
  let kept :=
    List.filter (fun p => negb (rejected (lines_of fs p) line column hint)) cands in
  deal_duplicate fs line column cands hint
  = Ret match kept with
        | [] => (-1, None)
        | [p] => (0, Some p)
        | _ :: _ :: _ => (1, None)
        end.
Proof.
  intros Hline Hall kept.
  rewrite (deal_duplicate_spec fs line column hint cands Hline Hall).
  fold (remaining fs line column cands hint) in kept. subst kept.
  now destruct (remaining fs line column cands hint) as [|p [|q r]].
Qed.

Lemma deal_duplicate_outcome_witness :
  1 <= 2 /\
  Forall (fun p => In p (map fst (files demo_fs)))
         [["lib"; "util.c"]; ["test"; "util.c"]] /\
  deal_duplicate demo_fs 2 1 [["lib"; "util.c"]; ["test"; "util.c"]] EmptyString
  = Ret (0, Some ["lib"; "util.c"]).
Proof.
  assert (H1 : 1 <= 2) by lia.
  assert (H2 : Forall (fun p => In p (map fst (files demo_fs)))
                      [["lib"; "util.c"]; ["test"; "util.c"]]).
  { repeat constructor; simpl; tauto. }
  split; [exact H1|]. split; [exact H2|].
  exact (deal_duplicate_outcome demo_fs 2 1 _ EmptyString H1 H2).
Defined.

(** C7.  On the spans the token pattern finds in a line the filter
    returns a list; whatever list the filter returns for a line and a
    sequence of spans has no duplicates, has no member of
    [C_CPP_KEYWORDS], is a subsequence of the texts of the spans in
    their order, and holds the text of every span that no rule
    excludes; the line [int for = while;] gives the empty list. *)
Theorem name_filter_output :
  (forall (line : string) (cap : bool),
      exists res, name_filter line (finditer line) cap = Ret res) /\
  (forall (lstr : string) (it : list (Z * Z)) (cap : bool) (res : list string),
      name_filter lstr it cap = Ret res ->
      NoDup res
      /\ (forall t, t ∈ res -> t ∉ C_CPP_KEYWORDS)
      /\ sublist res (span_texts lstr it)
      /\ (forall start end_,
            (start, end_) ∈ it ->
            name_excluded lstr start end_ = Ret false ->
            str_slice lstr start end_ ∉ C_CPP_KEYWORDS ->
            are_all_letters_uppercase (str_slice lstr start end_) = false
            \/ cap = false ->
            str_slice lstr start end_ ∈ res)) /\
  (forall cap : bool,
      name_filter "int for = while;" (finditer "int for = while;") cap = Ret []).
Proof.
  split; [exact name_filter_finditer_total|]. split.
  - intros lstr it cap res H.
    destruct (name_filter_loop_inv lstr cap it [] res H (NoDup_nil_2))
      as [Hnd [extra [-> [Hsub Hall]]]].
    split; [exact Hnd|]. split; [|split; [exact Hsub|]].
    + intros t Ht. rewrite Forall_forall in Hall. now apply Hall.
    + exact (proj2 (name_filter_loop_keeps lstr cap it [] _ H)).
  - intros []; reflexivity.
Qed.

Lemma name_filter_output_witness :
  name_filter "    int rc = fill(buf, n);"
              (finditer "    int rc = fill(buf, n);") true
  = Ret ["rc"; "buf"; "n"]
  /\ NoDup ["rc"; "buf"; "n"]
  /\ (forall t, t ∈ ["rc"; "buf"; "n"] -> t ∉ C_CPP_KEYWORDS)
  /\ sublist ["rc"; "buf"; "n"] ["int"; "rc"; "fill"; "buf"; "n"].
Proof.
  assert (H : name_filter "    int rc = fill(buf, n);"
                (finditer "    int rc = fill(buf, n);") true
              = Ret ["rc"; "buf"; "n"]) by reflexivity.
  split; [exact H|].
  destruct (proj1 (proj2 name_filter_output) _ _ _ _ H) as (H1 & H2 & H3 & _).
  exact (conj H1 (conj H2 H3)).
Defined.

Lemma no_alpha_all_upper (s : string) :
  Forall (fun c => isalpha c = false) (chars s) ->
  are_all_letters_uppercase s = true.
Proof.
  unfold are_all_letters_uppercase. generalize (chars s) as l.
  induction 1 as [|c l Hc Hl IH]; simpl; [reflexivity|].
  now rewrite Hc.
Qed.

(** C10.  [are_all_letters_uppercase] is true of every string without an
    alphabetic character; so with [cap_assert] set no such token is in
    what the filter returns, and the line [_], whose one token is [_],
    gives the empty list with [cap_assert] set and [_] without it. *)
Theorem all_caps_test_vacuous :
  (forall s : string,
      Forall (fun c => isalpha c = false) (chars s) ->
      are_all_letters_uppercase s = true) /\
  (forall (lstr : string) (it : list (Z * Z)) (res : list string) (t : string),
      name_filter lstr it true = Ret res ->
      Forall (fun c => isalpha c = false) (chars t) ->
      t ∉ res) /\
  finditer "_" = [(0, 1)] /\
  name_filter "_" (finditer "_") true = Ret [] /\
  name_filter "_" (finditer "_") false = Ret ["_"].
Proof.
  split; [exact no_alpha_all_upper|]. split; [|repeat split].
  intros lstr it res t H Ht Hin.
  destruct (name_filter_loop_inv lstr true it [] res H (NoDup_nil_2))
    as [_ [extra [-> [_ Hall]]]].
  rewrite Forall_forall in Hall.
  destruct (Hall t Hin) as [_ Hcap].
  rewrite (no_alpha_all_upper t Ht) in Hcap.
  specialize (Hcap eq_refl). discriminate.
Qed.

Lemma all_caps_test_vacuous_witness :
  Forall (fun c => isalpha c = false) (chars "_1.[2]") /\
  are_all_letters_uppercase "_1.[2]" = true /\
  name_filter "x = _1.[2];" (finditer "x = _1.[2];") true = Ret ["x"] /\
  "_1.[2]" ∉ ["x"].
Proof.
  assert (H1 : Forall (fun c => isalpha c = false) (chars "_1.[2]")).
  { repeat constructor. }
  assert (H2 : name_filter "x = _1.[2];" (finditer "x = _1.[2];") true
               = Ret ["x"]) by reflexivity.
  split; [exact H1|].
  split; [exact (proj1 all_caps_test_vacuous _ H1)|].
  split; [exact H2|].
  exact (proj1 (proj2 all_caps_test_vacuous) _ _ _ _ H2 H1).
Defined.

(** ** The enricher and the resolution of the primary location *)

Lemma classify_Ok_In (l : list Path) (p : Path) :
  classify l = Ok p -> l = [p].
Proof. destruct l as [|a [|b l]]; simpl; congruence. Qed.

Lemma primary_resolution_In (fs : FS) (w : warning) (p : Path) :
  primary_resolution fs w = Ok p -> In p (rglob fs (fl (Loc w))).
Proof.
  unfold primary_resolution.
  destruct (rglob fs (fl (Loc w))) as [|a [|b cands]] eqn:E.
  - discriminate.
  - intros [= ->]. now left.
  - intros H. apply classify_Ok_In in H.
    assert (Hin : In p (remaining fs (ln (Loc w)) (cl (Loc w)) (a :: b :: cands)
                                  (Func w))) by (rewrite H; now left).
    unfold remaining in Hin. now apply filter_In in Hin.
Qed.

Lemma enrich_by_resolution (args : Args) (fs : FS) (w : warning) :
  1 <= ln (Loc w) ->
  enrich args fs w
  = match primary_resolution fs w with
    | NotFound =>
        Ret (set_status (init_keys w) SVFTag.false TransformMessage.NSF)
    | Ambiguous =>
        Ret (set_status (init_keys w) SVFTag.false TransformMessage.DFF)
    | Ok p =>
        enrich_resolved args fs
          match rglob fs (fl (Loc w)) with
          | [_] => set_fl (init_keys w) (path_str p)
          | _ => init_keys w
          end p
    end.
Proof.
  intros Hln. unfold enrich, primary_resolution.
  cbn [Loc init_keys fl ln cl Func].
  pose proof (rglob_Forall fs (fl (Loc w))) as Hall.
  destruct (rglob fs (fl (Loc w))) as [|a [|b cands]]; [reflexivity..|].
  rewrite (deal_duplicate_spec _ _ _ _ _ Hln Hall).
  cbn [mbind exc_bind].
  now destruct (classify (remaining fs (ln (Loc w)) (cl (Loc w)) (a :: b :: cands)
                                    (Func w))).
Qed.

Lemma enrich_success_inv (args : Args) (fs : FS) (w w' : warning) :
  1 <= ln (Loc w) ->
  enrich args fs w = Ret w' ->
  Flag w' = SVFTag.true ->
  exists p w1,
    primary_resolution fs w = Ok p
    /\ (w1 = init_keys w \/ w1 = set_fl (init_keys w) (path_str p))
    /\ enrich_resolved args fs w1 p = Ret w'.
Proof.
  intros Hln H Hflag. rewrite (enrich_by_resolution _ _ _ Hln) in H.
  destruct (primary_resolution fs w) as [p| |].
  - exists p. eexists. split; [reflexivity|]. split; [|exact H].
    destruct (rglob fs (fl (Loc w))) as [|a [|b cands]]; auto.
  - injection H as <-. discriminate.
  - injection H as <-. discriminate.
Qed.

Lemma cond_excerpt_total (fs : FS) (w : warning) (c : cond_path) (l : Z)
    (p : Path) :
  In p (map fst (files fs)) ->
  1 <= l <= Z.of_nat (length (lines_of fs p)) ->
  exists c', cond_excerpt fs w c l p = Ret (w, c').
Proof.
  intros Hin Hl. unfold cond_excerpt.
  rewrite (lines_of_open fs p Hin). cbn [mbind exc_bind].
  destruct (py_index_total (lines_of fs p) (l - 1)) as [x ->]; [lia|].
  cbn. eauto.
Qed.

Lemma cond_body_total (fs : FS) (w : warning) (c : cond_path) :
  1 <= ln (Loc w) ->
  cond_in_range fs (Loc w) c ->
  exists w' c', cond_body fs w c = Ret (w', c').
Proof.
  intros Hln Hc. unfold cond_in_range, cond_resolution in Hc.
  unfold cond_body.
  pose proof (rglob_Forall fs (bfl (BL c))) as Hall.
  destruct (rglob fs (bfl (BL c))) as [|p [|q cands]] eqn:Hglob.
  - eauto.
  - destruct (cond_excerpt_total fs w (set_bfl c (path_str p)) (bln (BL c)) p)
      as [c' Hc']; [now inversion Hall | now apply Hc | eauto].
  - rewrite (deal_duplicate_spec _ _ _ _ _ Hln Hall). cbn [mbind exc_bind].
    destruct (classify (remaining fs (ln (Loc w)) (cl (Loc w)) (p :: q :: cands)
                                  EmptyString)) as [p'| |] eqn:Hcl;
      cbn [as_tuple fst snd]; [|eauto|eauto].
    change (0 =? 1) with false. change (0 =? -1) with false. cbv iota.
    destruct (cond_excerpt_total fs w c (bln (BL c)) p') as [c' Hc'];
      [|now apply Hc|eauto].
    apply classify_Ok_In in Hcl.
    assert (Hin : In p' (remaining fs (ln (Loc w)) (cl (Loc w)) (p :: q :: cands)
                                   EmptyString)) by (rewrite Hcl; now left).
    unfold remaining in Hin. apply filter_In in Hin as [Hin _].
    rewrite List.Forall_forall in Hall. now apply Hall.
Qed.

Lemma cond_loop_total (fs : FS) (conds : list cond_path) (w : warning) :
  1 <= ln (Loc w) ->
  Forall (cond_in_range fs (Loc w)) conds ->
  exists w' conds', cond_loop fs w conds = Ret (w', conds').
Proof.
  intros Hln Hall. revert w Hln Hall.
  induction conds as [|c conds IH]; intros w Hln Hall.
  - simpl. eauto.
  - inversion Hall as [|? ? Hc Hrest]; subst.
    cbn [cond_loop].
    destruct (cond_body_total fs w c Hln Hc) as (w1 & c1 & Hbody).
    rewrite Hbody. cbn [mbind exc_bind fst snd].
    pose proof (cond_body_payload _ _ _ _ _ Hbody) as (_ & HLoc & _).
    destruct (IH w1) as (w2 & cs2 & Hloop); [now rewrite HLoc | now rewrite HLoc |].
    rewrite Hloop. cbn. eauto.
Qed.

Lemma enrich_resolved_total (args : Args) (fs : FS) (w : warning) (p : Path) :
  In p (map fst (files fs)) ->
  1 <= ln (Loc w) <= Z.of_nat (length (lines_of fs p)) ->
  (DT w = SVFTag.DefectType.PL -> Forall (cond_in_range fs (Loc w)) (CFP w)) ->
  exists w', enrich_resolved args fs w p = Ret w'.
Proof.
  intros Hin Hln Hconds. unfold enrich_resolved.
  rewrite (lines_of_open fs p Hin). cbn [mbind exc_bind].
  destruct (py_index_total (lines_of fs p) (ln (Loc w) - 1)) as [line ->]; [lia|].
  cbn [mbind exc_bind].
  destruct (name_filter_finditer_total line (cap_not_name args)) as [names ->].
  cbn [mbind exc_bind DT set_Code set_V].
  destruct (String.eqb_spec (DT w) SVFTag.DefectType.PL) as [HPL|_];
    [|cbn; eauto].
  match goal with |- context [cond_loop fs ?w1 ?cs] =>
    destruct (cond_loop_total fs cs w1) as (w2 & cs2 & Hloop) end;
    [exact (proj1 Hln) | exact (Hconds HPL) |].
  cbn [CFP] in Hloop |- *. rewrite Hloop. cbn. eauto.
Qed.

Lemma enrich_total (args : Args) (fs : FS) (warn : warning) (p : Path) :
  primary_resolution fs warn = Ok p ->
  1 <= ln (Loc warn) <= Z.of_nat (length (lines_of fs p)) ->
  (DT warn = SVFTag.DefectType.PL ->
   Forall (cond_in_range fs (Loc warn)) (CFP warn)) ->
  exists w', enrich args fs warn = Ret w' /\ Flag w' = SVFTag.true.
Proof.
  intros Hres Hln Hconds.
  rewrite (enrich_by_resolution _ _ _ (proj1 Hln)). rewrite Hres.
  pose proof (primary_resolution_In _ _ _ Hres) as Hin.
  apply rglob_In in Hin as [Hin _].
  match goal with |- context [enrich_resolved args fs ?w1 p] =>
    destruct (enrich_resolved_total args fs w1 p Hin) as [w' Hw'] end.
  - destruct (rglob fs (fl (Loc warn))) as [|a [|b c]]; exact Hln.
  - destruct (rglob fs (fl (Loc warn))) as [|a [|b c]]; exact Hconds.
  - exists w'. split; [exact Hw'|].
    now apply enrich_resolved_fields in Hw'
      as (_ & _ & _ & _ & _ & _ & Hf & _).
Qed.

(** ** Stripping *)

Lemma drop_while_spec {A : Type} (p : A -> bool) (l : list A) :
  exists pre,
    l = pre ++ drop_while p l
    /\ Forall (fun x => p x = true) pre
    /\ forall x, head (drop_while p l) = Some x -> p x = false.
Proof.
  induction l as [|a l (pre & Heq & Hpre & Hhead)]; simpl.
  - exists []. repeat split; [constructor | discriminate].
  - destruct (p a) eqn:Hpa.
    + exists (a :: pre). simpl. rewrite <- Heq.
      repeat split; [constructor; assumption | exact Hhead].
    + exists []. repeat split; [constructor|].
      simpl. now intros x [= <-].
Qed.

Lemma chars_strip (line : string) :
  chars (strip line)
  = rev (drop_while isspace (rev (drop_while isspace (chars line)))).
Proof.
  unfold strip, rstrip, lstrip, chars.
  now rewrite !list_ascii_of_string_of_list_ascii.
Qed.

Lemma strip_spec (line : string) :
  exists pre post,
    chars line = pre ++ chars (strip line) ++ post
    /\ Forall (fun c => isspace c = true) pre
    /\ Forall (fun c => isspace c = true) post
    /\ (forall c, head (chars (strip line)) = Some c -> isspace c = false)
    /\ (forall c, last (chars (strip line)) = Some c -> isspace c = false).
Proof.
  rewrite chars_strip.
  destruct (drop_while_spec isspace (chars line)) as (pre & Heq & Hpre & Hhead).
  set (d := drop_while isspace (chars line)) in *.
  destruct (drop_while_spec isspace (rev d)) as (pre2 & Heq2 & Hpre2 & Hhead2).
  set (d2 := drop_while isspace (rev d)) in *.
  assert (Hd : d = rev d2 ++ rev pre2).
  { rewrite <- rev_app_distr, <- Heq2. now rewrite rev_involutive. }
  exists pre, (rev pre2). repeat split.
  - now rewrite <- Hd.
  - exact Hpre.
  - now apply List.Forall_rev.
  - intros c Hc. apply Hhead. rewrite Hd.
    apply head_Some in Hc as [l' Hl']. rewrite Hl'. reflexivity.
  - intros c Hc. apply Hhead2.
    apply last_Some in Hc as [l' Hl'].
    apply (f_equal (@rev ascii)) in Hl'.
    rewrite rev_involutive, rev_app_distr in Hl'. simpl in Hl'.
    now rewrite Hl'.
Qed.

(** C8.  Let a warning at line [L] (at least 1) be enriched with copy
    range [R] (at least 0) and come out with status [True].  Then its
    primary location resolved to a file [p] of [lastLine] lines, [L] is
    one of them, and [Code] holds the lines from [max 1 (L - R)] through
    [min lastLine (L + R)], in the order of the file, each stripped.  A
    warning that resolves to [p] and is at a line of [p] does come out
    so (for a partial leak, when each conditional free path that
    resolves is at a line of its file).  A stripped line is the line
    without the white space before its first and after its last other
    character. *)
Theorem excerpt_is_clamped_window :
  (forall (args : Args) (fs : FS) (warn w' : warning),
      1 <= ln (Loc warn) ->
      0 <= copy_range args ->
      enrich args fs warn = Ret w' ->
      Flag w' = SVFTag.true ->
      exists p,
        primary_resolution fs warn = Ok p /\
        let lines := lines_of fs p in
        let lastLine := Z.of_nat (length lines) in
        let L := ln (Loc warn) in
        let R := copy_range args in
        let lo := Z.max 1 (L - R) in
        let hi := Z.min lastLine (L + R) in
        lo <= L <= hi /\
        Z.of_nat (length (Code w')) = hi - lo + 1 /\
        forall k, lo <= k <= hi ->
          Code w' !! Z.to_nat (k - lo) = strip <$> lines !! Z.to_nat (k - 1)) /\
  (forall (args : Args) (fs : FS) (warn : warning) (p : Path),
      primary_resolution fs warn = Ok p ->
      1 <= ln (Loc warn) <= Z.of_nat (length (lines_of fs p)) ->
      (DT warn = SVFTag.DefectType.PL ->
       Forall (cond_in_range fs (Loc warn)) (CFP warn)) ->
      exists w', enrich args fs warn = Ret w' /\ Flag w' = SVFTag.true) /\
  (forall line : string,
      exists pre post,
        chars line = pre ++ chars (strip line) ++ post
        /\ Forall (fun c => isspace c = true) pre
        /\ Forall (fun c => isspace c = true) post
        /\ (forall c, head (chars (strip line)) = Some c -> isspace c = false)
        /\ (forall c, last (chars (strip line)) = Some c -> isspace c = false)).
Proof.
  split; [|split; [|exact strip_spec]].
  - intros args fs warn w' HL HR Hrun Hflag.
    destruct (enrich_success_inv _ _ _ _ HL Hrun Hflag) as (p & w1 & Hres & Hw1 & Hr).
    exists p. split; [exact Hres|].
    apply enrich_resolved_fields in Hr
      as (lines & line & names & Hopen & Hline & _ & _ & _ & _ & _ & _ & _ & HCode & _).
    assert (HLoc : Loc w1 = Loc warn \/ ln (Loc w1) = ln (Loc warn))
      by (destruct Hw1 as [->| ->]; [left|right]; reflexivity).
    assert (Hln : ln (Loc w1) = ln (Loc warn)) by (destruct HLoc; congruence).
    rewrite Hln in *. rewrite (lines_of_Ret _ _ _ Hopen).
    apply py_index_Ret_inv in Hline as [Hlt _]; [|lia].
    destruct (excerpt_window lines (ln (Loc warn)) (copy_range args) HL HR)
      as [Hlen Hat].
    cbv zeta. split; [lia|]. rewrite HCode. split.
    + rewrite length_fmap. rewrite Hlen. lia.
    + intros k Hk. rewrite list_lookup_fmap. now rewrite Hat.
  - exact enrich_total.
Qed.

Lemma excerpt_is_clamped_window_witness :
  1 <= ln (Loc warn_line10) /\
  0 <= copy_range demo_args /\
  enrich demo_args demo_fs warn_line10 = Ret warn_line10_out /\
  Flag warn_line10_out = SVFTag.true /\
  exists p,
    primary_resolution demo_fs warn_line10 = Ok p /\
    let lines := lines_of demo_fs p in
    let lastLine := Z.of_nat (length lines) in
    let lo := Z.max 1 (10 - 5) in
    let hi := Z.min lastLine (10 + 5) in
    lo <= 10 <= hi /\
    Z.of_nat (length (Code warn_line10_out)) = hi - lo + 1 /\
    forall k, lo <= k <= hi ->
      Code warn_line10_out !! Z.to_nat (k - lo) = strip <$> lines !! Z.to_nat (k - 1).
Proof.
  assert (H1 : 1 <= ln (Loc warn_line10)) by (simpl; lia).
  assert (H2 : 0 <= copy_range demo_args) by (simpl; lia).
  assert (H3 : enrich demo_args demo_fs warn_line10 = Ret warn_line10_out)
    by reflexivity.
  assert (H4 : Flag warn_line10_out = SVFTag.true) by reflexivity.
  split; [exact H1|]. split; [exact H2|]. split; [exact H3|]. split; [exact H4|].
  exact (proj1 excerpt_is_clamped_window demo_args demo_fs warn_line10
               warn_line10_out H1 H2 H3 H4).
Defined.

(** ** A single match is not checked against the line number *)

Lemma enrich_single_match_beyond (args : Args) (fs : FS) (warn : warning)
    (p : Path) :
  rglob fs (fl (Loc warn)) = [p] ->
  Z.of_nat (length (lines_of fs p)) < ln (Loc warn) ->
  enrich args fs warn = Raise IndexError.
Proof.
  intros Hglob Hlen. unfold enrich. cbn [Loc init_keys fl]. rewrite Hglob.
  unfold enrich_resolved.
  assert (Hin : In p (map fst (files fs))).
  { apply (rglob_In fs (fl (Loc warn))). rewrite Hglob. now left. }
  rewrite (lines_of_open fs p Hin). cbn [mbind exc_bind set_fl init_keys Loc ln].
  rewrite py_index_ge by lia. reflexivity.
Qed.

Lemma run_raises (args : Args) (fs : FS) (warn : warning) (e : pyexn)
    (report : list warning) :
  enrich args fs warn = Raise e ->
  In warn report ->
  exists e', run args fs report = Raise e'.
Proof.
  intros Hraise. induction report as [|w report IH]; intros Hin; [contradiction|].
  cbn [run]. destruct (enrich args fs w) as [w'|e1] eqn:Hw; [|simpl; eauto].
  cbn [mbind exc_bind].
  destruct Hin as [->|Hin]; [congruence|].
  destruct (IH Hin) as [e' ->]. simpl. eauto.
Qed.

Lemma run_raises_at (args : Args) (fs : FS) (warn : warning) (e : pyexn)
    (before after : list warning) :
  enrich args fs warn = Raise e ->
  (forall w, In w before -> exists w', enrich args fs w = Ret w') ->
  run args fs (before ++ warn :: after) = Raise e.
Proof.
  intros Hraise. induction before as [|w before IH]; intros Hok.
  - cbn [app run]. now rewrite Hraise.
  - cbn [app run]. destruct (Hok w (or_introl eq_refl)) as [w' ->].
    cbn [mbind exc_bind]. rewrite IH; [reflexivity|].
    intros w0 Hw0. apply Hok. now right.
Qed.

Lemma all_rejected_remaining (fs : FS) (line column : Z) (hint : string)
    (cands : list Path) :
  Forall (fun p => Z.of_nat (length (lines_of fs p)) < line) cands ->
  remaining fs line column cands hint = [].
Proof.
  unfold remaining.
  induction 1 as [|p cands Hp _ IH]; cbn [List.filter]; [reflexivity|].
  unfold rejected at 1.
  destruct (Z.ltb_spec (Z.of_nat (length (lines_of fs p))) line); [|lia].
  cbn [orb negb]. exact IH.
Qed.

(** C9.  A warning whose file name has one match [p] and whose line
    number is beyond the last line of [p] makes the loop body raise
    [IndexError]; a run over a report with such a warning writes
    nothing: it ends with an exception, which is this [IndexError] when
    the warnings before it are enriched without one.  With two matches
    or more and every candidate shorter than the line number (at least
    1), the warning is marked [False] with [No Such File] instead. *)
Theorem single_match_line_unchecked :
  (forall (args : Args) (fs : FS) (warn : warning) (p : Path),
      rglob fs (fl (Loc warn)) = [p] ->
      Z.of_nat (length (lines_of fs p)) < ln (Loc warn) ->
      enrich args fs warn = Raise IndexError
      /\ (forall report, In warn report ->
            exists e, run args fs report = Raise e)
      /\ (forall before after,
            (forall w, In w before -> exists w', enrich args fs w = Ret w') ->
            run args fs (before ++ warn :: after) = Raise IndexError)) /\
  (forall (args : Args) (fs : FS) (warn : warning),
      (2 <= length (rglob fs (fl (Loc warn))))%nat ->
      1 <= ln (Loc warn) ->
      Forall (fun p => Z.of_nat (length (lines_of fs p)) < ln (Loc warn))
             (rglob fs (fl (Loc warn))) ->
      enrich args fs warn
      = Ret (set_status (init_keys warn) SVFTag.false TransformMessage.NSF)).
Proof.
  split.
  - intros args fs warn p Hglob Hlen.
    pose proof (enrich_single_match_beyond args fs warn p Hglob Hlen) as Hraise.
    split; [exact Hraise|]. split.
    + intros report Hin. exact (run_raises _ _ _ _ _ Hraise Hin).
    + intros before after Hok. exact (run_raises_at _ _ _ _ _ _ Hraise Hok).
  - intros args fs warn Hlen Hln Hall.
    rewrite (enrich_by_resolution _ _ _ Hln). unfold primary_resolution.
    destruct (rglob fs (fl (Loc warn))) as [|a [|b cands]];
      [simpl in Hlen; lia | simpl in Hlen; lia |].
    now rewrite (all_rejected_remaining _ _ _ _ _ Hall).
Qed.

Lemma single_match_line_unchecked_witness :
  rglob demo_fs (fl (Loc warn_line13)) = [["src"; "leak.c"]] /\
  Z.of_nat (length (lines_of demo_fs ["src"; "leak.c"])) < ln (Loc warn_line13) /\
  enrich demo_args demo_fs warn_line13 = Raise IndexError /\
  run demo_args demo_fs [warn_line10; warn_line13; warn_line10]
  = Raise IndexError.
Proof.
  assert (H1 : rglob demo_fs (fl (Loc warn_line13)) = [["src"; "leak.c"]])
    by reflexivity.
  assert (H2 : Z.of_nat (length (lines_of demo_fs ["src"; "leak.c"]))
               < ln (Loc warn_line13)) by (vm_compute; reflexivity).
  split; [exact H1|]. split; [exact H2|].
  destruct (proj1 single_match_line_unchecked demo_args demo_fs warn_line13
                  ["src"; "leak.c"] H1 H2) as (Hraise & _ & Hrun).
  split; [exact Hraise|].
  apply (Hrun [warn_line10] [warn_line10]).
  intros w [<-|[]]. exists warn_line10_out. reflexivity.
Defined.

(** ** The status after the loop over the conditional free paths *)

Lemma finalize_unconditional (args : Args) (fs : FS) (w w' : warning) (p : Path) :
  enrich_resolved args fs w p = Ret w' ->
  Flag w' = SVFTag.true /\ Msg w' = TransformMessage.AC.
Proof.
  intros H.
  apply enrich_resolved_fields in H as (_ & _ & _ & _ & _ & _ & H1 & H2 & _).
  now split.
Qed.

Lemma enrich_status_by_resolution (args : Args) (fs : FS) (warn w' : warning) :
  1 <= ln (Loc warn) ->
  enrich args fs warn = Ret w' ->
  match primary_resolution fs warn with
  | Ok _ => Flag w' = SVFTag.true /\ Msg w' = TransformMessage.AC
  | Ambiguous => Flag w' = SVFTag.false /\ Msg w' = TransformMessage.DFF
  | NotFound => Flag w' = SVFTag.false /\ Msg w' = TransformMessage.NSF
  end.
Proof.
  intros Hln H. rewrite (enrich_by_resolution _ _ _ Hln) in H.
  destruct (primary_resolution fs warn) as [p| |].
  - eapply finalize_unconditional. exact H.
  - now injection H as <-.
  - now injection H as <-.
Qed.

Lemma enrich_never_cond_message (args : Args) (fs : FS) (warn w' : warning) :
  enrich args fs warn = Ret w' ->
  Msg w' <> TransformMessage.DFFIC /\ Msg w' <> TransformMessage.NSFIC.
Proof.
  intros H. apply enrich_inv in H as [(_ & [-> | ->] & _)|(p & w1 & _ & _ & H)];
    [split; discriminate | split; discriminate |].
  apply finalize_unconditional in H as [_ ->]. split; discriminate.
Qed.

(** C1.  The status a warning (at a line number at least 1) leaves the
    enricher with is decided by the resolution of its primary location
    alone: [True] with the empty message when that resolves, whatever
    became of its conditional free paths; no warning comes out with a
    message of the conditions analysis.  The partial leak [warn_gone]
    resolves at its primary location and its one conditional free path
    has no match: the loop body marks the warning [False] with
    [No Such File], and the warning still comes out with status [True]
    and an empty message.  The same holds of [warn_dup], whose
    conditional free path stays ambiguous and is marked with the message
    of the conditions analysis. *)
Theorem status_overwritten_after_cond_failure :
  (forall (args : Args) (fs : FS) (warn w' : warning),
      1 <= ln (Loc warn) ->
      enrich args fs warn = Ret w' ->
      match primary_resolution fs warn with
      | Ok _ => Flag w' = SVFTag.true /\ Msg w' = TransformMessage.AC
      | Ambiguous => Flag w' = SVFTag.false /\ Msg w' = TransformMessage.DFF
      | NotFound => Flag w' = SVFTag.false /\ Msg w' = TransformMessage.NSF
      end) /\
  (forall (args : Args) (fs : FS) (warn w' : warning),
      enrich args fs warn = Ret w' ->
      Msg w' <> TransformMessage.DFFIC /\ Msg w' <> TransformMessage.NSFIC) /\
  primary_resolution demo_fs warn_gone = Ok ["src"; "leak.c"] /\
  cond_resolution demo_fs (Loc warn_gone) (input_cond "gone.c" 1 "True")
  = NotFound /\
  cond_body demo_fs warn_gone (input_cond "gone.c" 1 "True")
  = Ret (set_status warn_gone SVFTag.false TransformMessage.NSF,
         input_cond "gone.c" 1 "True") /\
  (exists w', enrich demo_args demo_fs warn_gone = Ret w'
              /\ Flag w' = SVFTag.true /\ Msg w' = TransformMessage.AC) /\
  cond_resolution demo_fs (Loc warn_dup) cond_util3 = Ambiguous /\
  cond_body demo_fs warn_dup cond_util3
  = Ret (set_status warn_dup SVFTag.false TransformMessage.DFFIC, cond_util3) /\
  (exists w', enrich demo_args demo_fs warn_dup = Ret w'
              /\ Flag w' = SVFTag.true /\ Msg w' = TransformMessage.AC).
Proof.
  split; [exact enrich_status_by_resolution|].
  split; [exact enrich_never_cond_message|].
  split; [reflexivity|]. split; [reflexivity|]. split; [reflexivity|].
  split; [eexists; split; [reflexivity | split; reflexivity]|].
  split; [reflexivity|]. split; [reflexivity|].
  eexists; split; [reflexivity | split; reflexivity].
Qed.

Lemma status_overwritten_after_cond_failure_witness :
  1 <= ln (Loc warn_three) /\
  enrich demo_args demo_fs warn_three = Ret warn_three_out /\
  cond_resolution demo_fs (Loc warn_three) (input_cond "gone.c" 1 "False")
  = NotFound /\
  Flag warn_three_out = SVFTag.true /\ Msg warn_three_out = TransformMessage.AC.
Proof.
  assert (H1 : 1 <= ln (Loc warn_three)) by (simpl; lia).
  assert (H2 : enrich demo_args demo_fs warn_three = Ret warn_three_out)
    by reflexivity.
  split; [exact H1|]. split; [exact H2|]. split; [reflexivity|].
  exact (proj1 status_overwritten_after_cond_failure demo_args demo_fs
               warn_three warn_three_out H1 H2).
Defined.

(** C2, as stated, fails: the second conditional free path of
    [warn_three] has no match, and the third is processed all the same,
    its file field and its excerpt written. *)
Lemma stop_after_failure_counterexample :
  ~ stops_after_failure demo_args demo_fs warn_three.
Proof.
  intros H.
  specialize (H warn_three_out 1%nat 2%nat
                (input_cond "gone.c" 1 "False") (input_cond "leak.c" 8 "True")
                eq_refl eq_refl eq_refl).
  assert (Hfail : forall p,
             cond_resolution demo_fs (Loc warn_three)
                             (input_cond "gone.c" 1 "False") <> Ok p)
    by (intros p; discriminate).
  specialize (H Hfail (Nat.lt_succ_diag_r 1) eq_refl).
  discriminate H.
Qed.

Lemma cond_outcome_loc (fs : FS) (loc loc' : location) (c c' : cond_path) :
  ln loc' = ln loc -> cl loc' = cl loc ->
  cond_outcome fs loc' c c' -> cond_outcome fs loc c c'.
Proof.
  unfold cond_outcome, cond_resolution. now intros -> ->.
Qed.

(** C2, amended.  For a partial leak at a line number at least 1 that
    leaves the enricher with status [True] (its primary location
    resolved), every conditional free path is processed on its own,
    whatever became of the paths before it: a path that does not resolve
    is left as it was, file field and excerpt, and a path that resolves
    has the stripped line at its own line number as its excerpt, and
    the path of its file as its file field when that file is the only
    match.  A warning whose primary location resolves to a file [p], at
    a line of [p], does leave the enricher so when each of its
    conditional free paths that resolves is at a line of its file. *)
Theorem cond_paths_processed_independently :
  (forall (args : Args) (fs : FS) (warn w' : warning),
      1 <= ln (Loc warn) ->
      DT warn = SVFTag.DefectType.PL ->
      enrich args fs warn = Ret w' ->
      Flag w' = SVFTag.true ->
      Forall2 (cond_outcome fs (Loc warn)) (CFP warn) (CFP w')) /\
  (forall (args : Args) (fs : FS) (warn : warning) (p : Path),
      primary_resolution fs warn = Ok p ->
      1 <= ln (Loc warn) <= Z.of_nat (length (lines_of fs p)) ->
      (DT warn = SVFTag.DefectType.PL ->
       Forall (cond_in_range fs (Loc warn)) (CFP warn)) ->
      exists w', enrich args fs warn = Ret w' /\ Flag w' = SVFTag.true).
Proof.
  split; [|exact enrich_total].
  intros args fs warn w' Hln HPL Hrun Hflag.
  destruct (enrich_success_inv _ _ _ _ Hln Hrun Hflag) as (p & w1 & _ & Hw1 & Hr).
  apply enrich_resolved_fields in Hr
    as (_ & _ & _ & _ & _ & _ & _ & _ & _ & _ & _ & _ & _ & _ & Hconds).
  assert (H1 : DT w1 = DT warn /\ CFP w1 = CFP warn /\ ln (Loc w1) = ln (Loc warn)
               /\ cl (Loc w1) = cl (Loc warn)).
  { destruct Hw1 as [-> | ->]; repeat split. }
  destruct H1 as (HDT & HCFP & Hl & Hc).
  rewrite HDT, HCFP, Hl in Hconds.
  specialize (Hconds HPL Hln).
  eapply Forall2_impl; [exact Hconds|].
  intros c c'. now apply cond_outcome_loc.
Qed.

Lemma cond_paths_processed_independently_witness :
  1 <= ln (Loc warn_three) /\
  DT warn_three = SVFTag.DefectType.PL /\
  enrich demo_args demo_fs warn_three = Ret warn_three_out /\
  Flag warn_three_out = SVFTag.true /\
  Forall2 (cond_outcome demo_fs (Loc warn_three))
          (CFP warn_three) (CFP warn_three_out).
Proof.
  assert (H1 : 1 <= ln (Loc warn_three)) by (simpl; lia).
  assert (H2 : DT warn_three = SVFTag.DefectType.PL) by reflexivity.
  assert (H3 : enrich demo_args demo_fs warn_three = Ret warn_three_out)
    by reflexivity.
  assert (H4 : Flag warn_three_out = SVFTag.true) by reflexivity.
  split; [exact H1|]. split; [exact H2|]. split; [exact H3|]. split; [exact H4|].
  exact (proj1 cond_paths_processed_independently demo_args demo_fs warn_three
               warn_three_out H1 H2 H3 H4).
Defined.

(** ** The file field of the primary location *)

Lemma enrich_file_field (args : Args) (fs : FS) (warn w' : warning) :
  enrich args fs warn = Ret w' ->
  fl (Loc w') = match rglob fs (fl (Loc warn)) with
                | [p] => path_str p
                | _ => fl (Loc warn)
                end.
Proof.
  unfold enrich. cbn [Loc init_keys fl ln cl Func]. intros H.
  destruct (rglob fs (fl (Loc warn))) as [|p [|q cands]].
  - now injection H as <-.
  - apply enrich_resolved_fields in H
      as (_ & _ & _ & _ & _ & _ & _ & _ & _ & HLoc & _).
    now rewrite HLoc.
  - apply bind_Ret_inv in H as [[flag src] [_ H]]. cbn [fst snd] in H.
    destruct (flag =? 1); [now injection H as <-|].
    destruct (flag =? -1); [now injection H as <-|].
    destruct src as [p'|]; [|discriminate].
    apply enrich_resolved_fields in H
      as (_ & _ & _ & _ & _ & _ & _ & _ & _ & HLoc & _).
    now rewrite HLoc.
Qed.

(** C3.  The file field a warning leaves the enricher with is the path
    of the match relative to the working directory when the file name
    has one match, and the file name as reported in every other case,
    resolved by [deal_duplicate] or not.  The file name of [warn_util]
    has two matches, and [deal_duplicate] resolves it to [lib/util.c]:
    the warning comes out with status [True] and its file field is
    still the bare name [util.c].  The file name of [warn_line10] has
    one match: its file field is [src/leak.c], which is not the
    absolute path. *)
Theorem disambiguated_file_not_written :
  (forall (args : Args) (fs : FS) (warn w' : warning),
      enrich args fs warn = Ret w' ->
      fl (Loc w') = match rglob fs (fl (Loc warn)) with
                    | [p] => path_str p
                    | _ => fl (Loc warn)
                    end) /\
  primary_resolution demo_fs warn_util = Ok ["lib"; "util.c"] /\
  deal_duplicate demo_fs 2 1 (rglob demo_fs "util.c") "helper"
  = Ret (0, Some ["lib"; "util.c"]) /\
  absolute demo_fs ["lib"; "util.c"] = "/home/svf/lib/util.c" /\
  (exists w', enrich demo_args demo_fs warn_util = Ret w'
              /\ Flag w' = SVFTag.true
              /\ fl (Loc w') = "util.c") /\
  primary_resolution demo_fs warn_line10 = Ok ["src"; "leak.c"] /\
  absolute demo_fs ["src"; "leak.c"] = "/home/svf/src/leak.c" /\
  (exists w', enrich demo_args demo_fs warn_line10 = Ret w'
              /\ Flag w' = SVFTag.true
              /\ fl (Loc w') = "src/leak.c").
Proof.
  split; [exact enrich_file_field|].
  split; [reflexivity|]. split; [reflexivity|]. split; [reflexivity|].
  split; [eexists; split; [reflexivity | split; reflexivity]|].
  split; [reflexivity|]. split; [reflexivity|].
  eexists; split; [reflexivity | split; reflexivity].
Qed.

Lemma disambiguated_file_not_written_witness :
  enrich demo_args demo_fs warn_line10 = Ret warn_line10_out /\
  fl (Loc warn_line10_out) = "src/leak.c".
Proof.
  assert (H : enrich demo_args demo_fs warn_line10 = Ret warn_line10_out)
    by reflexivity.
  split; [exact H|].
  exact (proj1 disambiguated_file_not_written demo_args demo_fs warn_line10
               warn_line10_out H).
Defined.

(** ** The line that corroborates a conditional free path *)

(** C4, as stated, fails: for the conditional free path of [warn_dup],
    at line 3 of [util.c], corroboration at the line of the branch
    keeps [lib/util.c] alone and stores its third line, and the loop
    body, which corroborates at line 1 of the warning, finds the two
    files and marks the warning. *)
Lemma branch_line_counterexample :
  (2 <= length (rglob demo_fs (bfl (BL cond_util3))))%nat /\
  cond_body_corroborating (bln (BL cond_util3)) demo_fs warn_dup cond_util3
  = Ret (warn_dup, set_BCode cond_util3 "}") /\
  cond_body demo_fs warn_dup cond_util3
  = Ret (set_status warn_dup SVFTag.false TransformMessage.DFFIC, cond_util3) /\
  cond_body demo_fs warn_dup cond_util3
  <> cond_body_corroborating (bln (BL cond_util3)) demo_fs warn_dup cond_util3.
Proof.
  split; [vm_compute; lia|]. split; [reflexivity|]. split; [reflexivity|].
  vm_compute. discriminate.
Qed.

Lemma rejected_no_hint (lines : list string) (line column : Z) :
  rejected lines line column EmptyString
  = (Z.of_nat (length lines) <? line)
    || match lines !! Z.to_nat (line - 1) with
       | Some s => str_len s <? column
       | None => false
       end.
Proof. unfold rejected. simpl. now rewrite orb_false_r. Qed.

(** C4, amended.  For a conditional free path whose file name has
    several matches, in a warning at a line number at least 1, the loop
    body corroborates the candidates at the line number and the column
    of the warning, with no hint: a candidate is rejected when it has
    fewer lines than the line number of the warning or when its line of
    that number is shorter than the column of the warning.  The line
    number of the branch is the one of the excerpt only. *)
Theorem cond_corroborated_at_primary_line :
  (forall (fs : FS) (warn : warning) (c : cond_path),
      1 <= ln (Loc warn) ->
      (2 <= length (rglob fs (bfl (BL c))))%nat ->
      cond_body fs warn c
      = cond_body_corroborating (ln (Loc warn)) fs warn c) /\
  (forall (lines : list string) (line column : Z),
      rejected lines line column EmptyString
      = (Z.of_nat (length lines) <? line)
        || match lines !! Z.to_nat (line - 1) with
           | Some s => str_len s <? column
           | None => false
           end).
Proof.
  split; [|exact rejected_no_hint].
  intros fs warn c Hln Hlen.
  unfold cond_body, cond_body_corroborating.
  pose proof (rglob_Forall fs (bfl (BL c))) as Hall.
  destruct (rglob fs (bfl (BL c))) as [|a [|b cands]];
    [simpl in Hlen; lia | simpl in Hlen; lia |].
  rewrite (deal_duplicate_spec _ _ _ _ _ Hln Hall).
  cbn [mbind exc_bind].
  now destruct (classify (remaining fs (ln (Loc warn)) (cl (Loc warn))
                                    (a :: b :: cands) EmptyString)).
Qed.

Lemma cond_corroborated_at_primary_line_witness :
  1 <= ln (Loc warn_dup) /\
  (2 <= length (rglob demo_fs (bfl (BL cond_util3))))%nat /\
  cond_body demo_fs warn_dup cond_util3
  = cond_body_corroborating (ln (Loc warn_dup)) demo_fs warn_dup cond_util3 /\
  cond_body_corroborating (ln (Loc warn_dup)) demo_fs warn_dup cond_util3
  = Ret (set_status warn_dup SVFTag.false TransformMessage.DFFIC, cond_util3).
Proof.
  assert (H1 : 1 <= ln (Loc warn_dup)) by (simpl; lia).
  assert (H2 : (2 <= length (rglob demo_fs (bfl (BL cond_util3))))%nat)
    by (vm_compute; lia).
  split; [exact H1|]. split; [exact H2|].
  split; [|reflexivity].
  exact (proj1 cond_corroborated_at_primary_line demo_fs warn_dup cond_util3 H1 H2).
Defined.

(** ** The root directory option *)

(** C5.  The option [root_dir] has no part in the enrichment: whatever
    its value, each warning and each report come out the same.  With
    [root_dir] set to [test], [warn_line10] still resolves to
    [src/leak.c], the one file named [leak.c] below the working
    directory, which is not below [test]. *)
Theorem root_dir_ignored :
  (forall (args : Args) (r : string) (fs : FS) (warn : warning),
      enrich (set_root_dir args r) fs warn = enrich args fs warn) /\
  (forall (args : Args) (r : string) (fs : FS) (report : list warning),
      run (set_root_dir args r) fs report = run args fs report) /\
  rglob demo_fs "leak.c" = [["src"; "leak.c"]] /\
  enrich (set_root_dir demo_args "test") demo_fs warn_line10
  = Ret warn_line10_out.
Proof.
  assert (H : forall args r fs warn,
             enrich (set_root_dir args r) fs warn = enrich args fs warn)
    by reflexivity.
  split; [exact H|]. split; [|split; reflexivity].
  intros args r fs report. induction report as [|w report IH]; [reflexivity|].
  cbn [run]. now rewrite H, IH.
Qed.

(** * Further properties of the resolver *)

Lemma deal_duplicate_total (fs : FS) (line column : Z) (hint : string)
    (cands : list Path) :
  1 <= line ->
  Forall (fun p => In p (map fst (files fs))) cands ->
  exists r, deal_duplicate fs line column cands hint = Ret r.
Proof.
  intros Hline Hall. rewrite (deal_duplicate_spec _ _ _ _ _ Hline Hall). eauto.
Qed.

(** X1.  Whatever [deal_duplicate] returns is one of three shapes: flag
    0 with one of the candidate files, flag 1 with no file, or flag -1
    with no file; and for a line number at least 1 and candidates of
    the tree it does return. *)
Theorem deal_duplicate_result_shape :
  (forall (fs : FS) (l c : Z) (cands : list Path) (hint : string)
          (flag : Z) (src : option Path),
      deal_duplicate fs l c cands hint = Ret (flag, src) ->
      (flag = 0 /\ exists p, src = Some p /\ In p cands)
      \/ ((flag = 1 \/ flag = -1) /\ src = None)) /\
  (forall (fs : FS) (l c : Z) (cands : list Path) (hint : string),
      1 <= l ->
      Forall (fun p => In p (map fst (files fs))) cands ->
      exists r, deal_duplicate fs l c cands hint = Ret r).
Proof.
  split; [|intros fs l c cands hint; apply deal_duplicate_total].
  intros fs l c cands hint flag src H.
  pose proof H as H0. unfold deal_duplicate in H.
  apply bind_Ret_inv in H as [res [Hloop H]].
  destruct (1 <? length res)%nat.
  { injection H as <- <-. right. split; [now left | reflexivity]. }
  destruct (length res =? 1)%nat eqn:Hlen.
  - injection H as <- <-. left. split; [reflexivity|].
    apply Nat.eqb_eq in Hlen.
    destruct res as [|p [|q res]]; simpl in Hlen; try discriminate.
    exists p. split; [reflexivity|].
    eapply deal_duplicate_In. exact H0.
  - injection H as <- <-. right. split; [now right | reflexivity].
Qed.

Lemma deal_duplicate_result_shape_witness :
  deal_duplicate demo_fs 2 1 (rglob demo_fs "util.c") "helper"
  = Ret (0, Some ["lib"; "util.c"]) /\
  ((0 = 0 /\ exists p, Some ["lib"; "util.c"] = Some p
                       /\ In p (rglob demo_fs "util.c"))
   \/ ((0 = 1 \/ 0 = -1) /\ Some ["lib"; "util.c"] = None)).
Proof.
  assert (H : deal_duplicate demo_fs 2 1 (rglob demo_fs "util.c") "helper"
              = Ret (0, Some ["lib"; "util.c"])) by reflexivity.
  split; [exact H|].
  exact (proj1 deal_duplicate_result_shape _ _ _ _ _ _ _ H).
Defined.

Lemma filter_Permutation {A : Type} (f : A -> bool) (l l' : list A) :
  Permutation l l' -> Permutation (List.filter f l) (List.filter f l').
Proof.
  induction 1 as [|x l l' _ IH|x y l|l l' l'' _ IH1 _ IH2]; simpl.
  - constructor.
  - destruct (f x); [now constructor | exact IH].
  - destruct (f x), (f y); try reflexivity. constructor.
  - now transitivity (List.filter f l').
Qed.

Lemma classify_Permutation (l l' : list Path) :
  Permutation l l' -> classify l = classify l'.
Proof.
  intros HP. pose proof (Permutation_length HP) as Hlen.
  destruct l as [|a [|b l]].
  - apply Permutation_nil in HP. now subst.
  - apply Permutation_length_1_inv in HP. now subst.
  - destruct l' as [|a' [|b' l']]; simpl in Hlen; try discriminate. reflexivity.
Qed.

(** X2.  For a line number at least 1 the outcome of [deal_duplicate]
    does not depend on the order in which the search lists the
    candidates. *)
Theorem deal_duplicate_order_irrelevant (fs : FS) (line column : Z)
    (hint : string) (cands cands' : list Path) :
  1 <= line ->
  Forall (fun p => In p (map fst (files fs))) cands ->
  Permutation cands cands' ->
  deal_duplicate fs line column cands hint
  = deal_duplicate fs line column cands' hint.
Proof.
  intros Hline Hall HP.
  assert (Hall' : Forall (fun p => In p (map fst (files fs))) cands').
  { rewrite List.Forall_forall in *. intros p Hp. apply Hall.
    eapply Permutation_in; [symmetry; exact HP | exact Hp]. }
  rewrite (deal_duplicate_spec _ _ _ _ _ Hline Hall).
  rewrite (deal_duplicate_spec _ _ _ _ _ Hline Hall').
  do 2 f_equal. apply classify_Permutation.
  unfold remaining. now apply filter_Permutation.
Qed.

Lemma deal_duplicate_order_irrelevant_witness :
  1 <= 2 /\
  Forall (fun p => In p (map fst (files demo_fs)))
         [["lib"; "util.c"]; ["test"; "util.c"]] /\
  Permutation [["lib"; "util.c"]; ["test"; "util.c"]]
              [["test"; "util.c"]; ["lib"; "util.c"]] /\
  deal_duplicate demo_fs 2 1 [["lib"; "util.c"]; ["test"; "util.c"]] EmptyString
  = deal_duplicate demo_fs 2 1 [["test"; "util.c"]; ["lib"; "util.c"]] EmptyString.
Proof.
  assert (H1 : 1 <= 2) by lia.
  assert (H2 : Forall (fun p => In p (map fst (files demo_fs)))
                      [["lib"; "util.c"]; ["test"; "util.c"]]).
  { repeat constructor; simpl; tauto. }
  assert (H3 : Permutation [["lib"; "util.c"]; ["test"; "util.c"]]
                           [["test"; "util.c"]; ["lib"; "util.c"]])
    by apply perm_swap.
  split; [exact H1|]. split; [exact H2|]. split; [exact H3|].
  exact (deal_duplicate_order_irrelevant demo_fs 2 1 EmptyString _ _ H1 H2 H3).
Defined.

Lemma remaining_hint (fs : FS) (line column : Z) (hint : string)
    (cands : list Path) :
  remaining fs line column cands hint
  = List.filter
      (fun p => negb (str_truthy hint
                      && forallb (fun s => negb (str_contains hint s))
                                 (take (Z.to_nat line) (lines_of fs p))))
      (remaining fs line column cands EmptyString).
Proof.
  unfold remaining. induction cands as [|p cands IH]; [reflexivity|].
  cbn [List.filter]. rewrite rejected_no_hint. unfold rejected at 1.
  destruct ((Z.of_nat (length (lines_of fs p)) <? line)
            || match lines_of fs p !! Z.to_nat (line - 1) with
               | Some s => str_len s <? column
               | None => false
               end); cbn [orb negb List.filter]; [exact IH|].
  destruct (negb _); [now rewrite IH | exact IH].
Qed.

Lemma as_tuple_inj (r r' : resolution) : as_tuple r = as_tuple r' -> r = r'.
Proof. destruct r, r'; simpl; congruence. Qed.

Lemma classify_NotFound (l : list Path) : classify l = NotFound -> l = [].
Proof. destruct l as [|a [|b l]]; simpl; congruence. Qed.

(** X3.  For a line number at least 1, a function-name hint only ever
    rejects candidates that [deal_duplicate] keeps without it: when no
    candidate is kept without the hint none is kept with it; a file
    that is the answer without the hint is the answer or is lost with
    it; and a file that is the answer with the hint is the answer, or
    one of several, without it. *)
Theorem hint_only_rejects (fs : FS) (line column : Z) (hint : string)
    (cands : list Path) :
  1 <= line ->
  Forall (fun p => In p (map fst (files fs))) cands ->
  (deal_duplicate fs line column cands EmptyString = Ret (-1, None) ->
   deal_duplicate fs line column cands hint = Ret (-1, None)) /\
  (forall p,
      deal_duplicate fs line column cands EmptyString = Ret (0, Some p) ->
      deal_duplicate fs line column cands hint = Ret (0, Some p)
      \/ deal_duplicate fs line column cands hint = Ret (-1, None)) /\
  (forall p,
      deal_duplicate fs line column cands hint = Ret (0, Some p) ->
      deal_duplicate fs line column cands EmptyString = Ret (0, Some p)
      \/ deal_duplicate fs line column cands EmptyString = Ret (1, None)).
Proof.
  intros Hline Hall.
  rewrite !(deal_duplicate_spec _ _ _ _ _ Hline Hall).
  rewrite (remaining_hint fs line column hint cands).
  set (kept := remaining fs line column cands EmptyString).
  set (h := fun p => negb (str_truthy hint
                           && forallb (fun s => negb (str_contains hint s))
                                      (take (Z.to_nat line) (lines_of fs p)))).
  split; [|split].
  - intros [= H]. apply (as_tuple_inj _ NotFound), classify_NotFound in H.
    now rewrite H.
  - intros p [= H]. apply (as_tuple_inj _ (Ok p)), classify_Ok_In in H.
    rewrite H. simpl. destruct (h p); [now left | now right].
  - intros p [= H]. apply (as_tuple_inj _ (Ok p)), classify_Ok_In in H.
    destruct kept as [|a [|b kept]].
    + discriminate.
    + simpl in H. destruct (h a); [|discriminate]. injection H as ->. now left.
    + now right.
Qed.

Lemma hint_only_rejects_witness :
  1 <= 2 /\
  Forall (fun p => In p (map fst (files demo_fs))) (rglob demo_fs "util.c") /\
  deal_duplicate demo_fs 2 1 (rglob demo_fs "util.c") EmptyString
  = Ret (0, Some ["lib"; "util.c"]) /\
  deal_duplicate demo_fs 2 1 (rglob demo_fs "util.c") "main"
  = Ret (-1, None) /\
  (deal_duplicate demo_fs 2 1 (rglob demo_fs "util.c") "main"
   = Ret (0, Some ["lib"; "util.c"])
   \/ deal_duplicate demo_fs 2 1 (rglob demo_fs "util.c") "main"
      = Ret (-1, None)).
Proof.
  assert (H1 : 1 <= 2) by lia.
  assert (H2 : Forall (fun p => In p (map fst (files demo_fs)))
                      (rglob demo_fs "util.c")) by apply rglob_Forall.
  assert (H3 : deal_duplicate demo_fs 2 1 (rglob demo_fs "util.c") EmptyString
               = Ret (0, Some ["lib"; "util.c"])) by reflexivity.
  split; [exact H1|]. split; [exact H2|]. split; [exact H3|].
  split; [reflexivity|].
  exact (proj1 (proj2 (hint_only_rejects demo_fs 2 1 "main" _ H1 H2)) _ H3).
Defined.

Lemma py_index_minus1 {A : Type} (l : list A) (x : A) :
  last l = Some x -> py_index l (-1) = Ret x.
Proof.
  intros Hlast. rewrite last_lookup in Hlast.
  pose proof (lookup_lt_Some _ _ _ Hlast) as Hlt.
  unfold py_index. change (-1 <? 0) with true. cbv iota.
  destruct (Z.ltb_spec (-1 + Z.of_nat (length l)) 0); [lia|].
  destruct (Z.leb_spec (Z.of_nat (length l)) (-1 + Z.of_nat (length l))); [lia|].
  simpl. replace (Z.to_nat (-1 + Z.of_nat (length l))) with (pred (length l)) by lia.
  now rewrite Hlast.
Qed.

Lemma py_index_nil {A : Type} (i : Z) : py_index (@nil A) i = Raise IndexError.
Proof.
  unfold py_index. destruct (_ || _); [reflexivity|]. now rewrite lookup_nil.
Qed.

Lemma deal_duplicate_loop_line0 (fs : FS) (column : Z) (hint : string)
    (cands res : list Path) :
  Forall (fun p => In p (map fst (files fs))) cands ->
  Forall (fun p => lines_of fs p <> []) cands ->
  deal_duplicate_loop fs 0 column cands hint res
  = Ret (res ++ List.filter
                  (fun p => kept_at_line0 (lines_of fs p) column hint) cands).
Proof.
  intros Hall. revert res.
  induction Hall as [|p cands Hp Hall IH]; intros res Hne.
  - simpl. now rewrite app_nil_r.
  - inversion Hne as [|? ? Hpne Hne']; subst.
    cbn [deal_duplicate_loop List.filter].
    rewrite (lines_of_open fs p Hp). cbn [mbind exc_bind].
    destruct (Z.ltb_spec (Z.of_nat (length (lines_of fs p))) 0) as [Hlt|_]; [lia|].
    unfold kept_at_line0 at 1.
    destruct (last (lines_of fs p)) as [s|] eqn:Hlast;
      [|now apply last_None in Hlast].
    change (0 - 1) with (-1). rewrite (py_index_minus1 _ _ Hlast).
    cbn [mbind exc_bind].
    destruct (Z.ltb_spec (str_len s) column) as [Hs|Hs].
    { destruct (Z.leb_spec column (str_len s)); [lia|].
      rewrite andb_false_r. now apply IH. }
    destruct (Z.leb_spec column (str_len s)); [|lia].
    rewrite andb_true_r.
    destruct (str_truthy hint); cbn [negb].
    + rewrite py_slice_prefix by lia. cbn. now apply IH.
    + rewrite IH by assumption. now rewrite <- app_assoc.
Qed.

Lemma deal_duplicate_loop_line0_empty (fs : FS) (column : Z) (hint : string)
    (pre post res : list Path) (p : Path) :
  Forall (fun q => In q (map fst (files fs))) (pre ++ p :: post) ->
  Forall (fun q => lines_of fs q <> []) pre ->
  lines_of fs p = [] ->
  deal_duplicate_loop fs 0 column (pre ++ p :: post) hint res
  = Raise IndexError.
Proof.
  intros Hall Hne Hp. revert res.
  induction pre as [|q pre IH]; intros res.
  - cbn [app deal_duplicate_loop].
    inversion Hall as [|? ? Hin _]; subst.
    rewrite (lines_of_open fs p Hin), Hp. reflexivity.
  - inversion Hall as [|? ? Hin Hall']; subst.
    inversion Hne as [|? ? Hq Hne']; subst.
    cbn [app deal_duplicate_loop].
    rewrite (lines_of_open fs q Hin). cbn [mbind exc_bind].
    destruct (Z.ltb_spec (Z.of_nat (length (lines_of fs q))) 0) as [Hlt|_]; [lia|].
    destruct (last (lines_of fs q)) as [s|] eqn:Hlast;
      [|now apply last_None in Hlast].
    change (0 - 1) with (-1). rewrite (py_index_minus1 _ _ Hlast).
    cbn [mbind exc_bind].
    destruct (str_len s <? column); [now apply IH|].
    destruct (str_truthy hint); [|now apply IH].
    rewrite py_slice_prefix by lia. cbn. now apply IH.
Qed.

(** X4.  At line number 0 [deal_duplicate] does not fail on files that
    have a line: it tests the last line of each candidate against the
    column and finds the hint in none, so with a hint it returns
    [(-1, None)] and without one it classifies the candidates whose
    last line has at least [column] characters.  A candidate without
    any line, reached after candidates that have one, makes it raise
    [IndexError]. *)
Theorem deal_duplicate_line0 :
  (forall (fs : FS) (column : Z) (cands : list Path) (hint : string),
      Forall (fun p => In p (map fst (files fs))) cands ->
      Forall (fun p => lines_of fs p <> []) cands ->
      deal_duplicate fs 0 column cands hint
      = Ret (as_tuple (classify
               (List.filter
                  (fun p => kept_at_line0 (lines_of fs p) column hint) cands)))) /\
  (forall (fs : FS) (column : Z) (pre post : list Path) (p : Path)
          (hint : string),
      Forall (fun q => In q (map fst (files fs))) (pre ++ p :: post) ->
      Forall (fun q => lines_of fs q <> []) pre ->
      lines_of fs p = [] ->
      deal_duplicate fs 0 column (pre ++ p :: post) hint = Raise IndexError).
Proof.
  split.
  - intros fs column cands hint Hall Hne. unfold deal_duplicate.
    rewrite (deal_duplicate_loop_line0 _ _ _ _ [] Hall Hne).
    cbn [mbind exc_bind app].
    now destruct (List.filter _ cands) as [|a [|b r]].
  - intros fs column pre post p hint Hall Hne Hp. unfold deal_duplicate.
    now rewrite (deal_duplicate_loop_line0_empty _ _ _ _ _ [] _ Hall Hne Hp).
Qed.

Lemma deal_duplicate_line0_witness :
  Forall (fun p => In p (map fst (files demo_fs))) (rglob demo_fs "util.c") /\
  Forall (fun p => lines_of demo_fs p <> []) (rglob demo_fs "util.c") /\
  deal_duplicate demo_fs 0 5 (rglob demo_fs "util.c") EmptyString
  = Ret (0, Some ["test"; "util.c"]) /\
  deal_duplicate demo_fs 0 5 (rglob demo_fs "util.c") "helper" = Ret (-1, None).
Proof.
  assert (H1 : Forall (fun p => In p (map fst (files demo_fs)))
                      (rglob demo_fs "util.c")) by apply rglob_Forall.
  assert (H2 : Forall (fun p => lines_of demo_fs p <> [])
                      (rglob demo_fs "util.c")).
  { repeat constructor; intros H; vm_compute in H; discriminate H. }
  split; [exact H1|]. split; [exact H2|]. split.
  - exact (proj1 deal_duplicate_line0 demo_fs 5 _ EmptyString H1 H2).
  - exact (proj1 deal_duplicate_line0 demo_fs 5 _ "helper" H1 H2).
Defined.

(** * Further properties of the lexical filter *)




Lemma name_filter_loop_cap (lstr : string) (it : list (Z * Z))
    (rt rf out : list string) :
  rt = List.filter (fun t => negb (are_all_letters_uppercase t)) rf ->
  name_filter_loop lstr it false rf = Ret out ->
  name_filter_loop lstr it true rt
  = Ret (List.filter (fun t => negb (are_all_letters_uppercase t)) out).
Proof.
  revert rt rf. induction it as [|[start end_] it IH]; intros rt rf Hrt Hrun.
  - injection Hrun as <-. now subst.
  - cbn [name_filter_loop] in Hrun |- *.
    apply bind_Ret_inv in Hrun as [skip [Hskip Hrun]]. rewrite Hskip.
    cbn [mbind exc_bind].
    destruct skip; [now apply (IH rt rf)|].
    set (tok := str_slice lstr start end_) in *.
    assert (Hin : are_all_letters_uppercase tok = false ->
                  str_in tok rt = str_in tok rf).
    { intros Hu. subst rt.
      destruct (str_in tok rf) eqn:Hrf.
      - apply str_in_spec. apply str_in_spec in Hrf.
        apply list_elem_of_In, filter_In. split.
        + now apply list_elem_of_In.
        + now rewrite Hu.
      - apply str_in_false. apply str_in_false in Hrf.
        intros Hc. apply Hrf. apply list_elem_of_In in Hc.
        apply filter_In in Hc as [Hc _]. now apply list_elem_of_In. }
    destruct (are_all_letters_uppercase tok) eqn:Hu.
    + cbn [negb orb andb]. rewrite andb_false_r.
      rewrite orb_true_r, andb_true_r in Hrun.
      destruct (negb (str_in tok rf) && negb (str_in tok C_CPP_KEYWORDS)).
      * apply (IH rt (rf ++ [tok])); [|exact Hrun].
        rewrite List.filter_app. cbn [List.filter]. rewrite Hu. cbn [negb].
        now rewrite app_nil_r.
      * now apply (IH rt rf).
    + rewrite (Hin eq_refl). cbn [negb orb] in Hrun |- *.
      rewrite andb_true_r in Hrun |- *.
      destruct (negb (str_in tok rf) && negb (str_in tok C_CPP_KEYWORDS)).
      * apply (IH (rt ++ [tok]) (rf ++ [tok])); [|exact Hrun].
        rewrite List.filter_app. cbn [List.filter]. rewrite Hu. cbn [negb].
        now subst rt.
      * now apply (IH rt rf).
Qed.

(** X6.  The all-caps policy only takes names away: what [name_filter]
    returns with [cap_assert] set is what it returns without it, less
    the names without a lower-case letter, in the same order. *)
Theorem cap_policy_is_a_filter (lstr : string) (it : list (Z * Z))
    (res : list string) :
  name_filter lstr it false = Ret res ->
  name_filter lstr it true
  = Ret (List.filter (fun t => negb (are_all_letters_uppercase t)) res).
Proof.
  intros H. unfold name_filter. now apply (name_filter_loop_cap lstr it [] []).
Qed.

Lemma cap_policy_is_a_filter_witness :
  name_filter "MAX_SIZE + count" (finditer "MAX_SIZE + count") false
  = Ret ["MAX_SIZE"; "count"] /\
  name_filter "MAX_SIZE + count" (finditer "MAX_SIZE + count") true
  = Ret ["count"].
Proof.
  assert (H : name_filter "MAX_SIZE + count" (finditer "MAX_SIZE + count") false
              = Ret ["MAX_SIZE"; "count"]) by reflexivity.
  split; [exact H|].
  exact (cap_policy_is_a_filter _ _ _ H).
Defined.

Lemma is_name_match_snoc (l : list ascii) (c : ascii) :
  is_name_match l = true -> name_tail c = true ->
  is_name_match (l ++ [c]) = true.
Proof.
  destruct l as [|a l]; [discriminate|]. cbn [app is_name_match].
  intros H Hc. apply andb_true_iff in H as [Ha Hl]. rewrite Ha.
  rewrite forallb_app, Hl. simpl. now rewrite Hc.
Qed.

Lemma scan_names_matches (s pre : list ascii) (cur : option Z) :
  (forall st, cur = Some st ->
              0 <= st < Z.of_nat (length pre)
              /\ is_name_match (drop (Z.to_nat st) pre) = true) ->
  Forall (fun se =>
            0 <= fst se < snd se
            /\ snd se <= Z.of_nat (length (pre ++ s))
            /\ is_name_match (take (Z.to_nat (snd se - fst se))
                                   (drop (Z.to_nat (fst se)) (pre ++ s))) = true
            /\ (forall c, (pre ++ s) !! Z.to_nat (snd se) = Some c ->
                          name_tail c = false))
         (scan_names s (Z.of_nat (length pre)) cur).
Proof.
  revert pre cur. induction s as [|c s IH]; intros pre cur Hcur.
  - cbn [scan_names]. destruct cur as [st|]; [|constructor].
    destruct (Hcur st eq_refl) as [Hst Hm].
    constructor; [|constructor]. cbn [fst snd]. rewrite app_nil_r.
    split; [lia|]. split; [lia|]. split.
    + rewrite take_ge; [exact Hm|]. rewrite length_drop. lia.
    + intros c Hc. apply lookup_lt_Some in Hc. lia.
  - assert (Hpos : Z.of_nat (length pre) + 1 = Z.of_nat (length (pre ++ [c]))).
    { rewrite length_app. simpl. lia. }
    assert (Happ : pre ++ c :: s = (pre ++ [c]) ++ s).
    { now rewrite <- app_assoc. }
    cbn [scan_names]. destruct cur as [st|].
    + destruct (Hcur st eq_refl) as [Hst Hm].
      destruct (name_tail c) eqn:Hc.
      * rewrite Hpos, Happ. apply IH. intros st' [= <-]. split; [lia|].
        rewrite drop_app_le by lia. now apply is_name_match_snoc.
      * constructor.
        -- cbn [fst snd]. split; [lia|]. split; [rewrite length_app; lia|]. split.
           ++ rewrite drop_app_le by lia.
              rewrite take_app_length'; [exact Hm|]. rewrite length_drop. lia.
           ++ intros c' Hc'. rewrite Nat2Z.id in Hc'.
              rewrite list_lookup_middle in Hc' by reflexivity.
              now injection Hc' as <-.
        -- rewrite Hpos, Happ. apply IH. intros st' [=].
    + destruct (name_head c) eqn:Hc.
      * rewrite Hpos, Happ. apply IH. intros st' [= <-]. split; [lia|].
        rewrite Nat2Z.id, drop_app_length. simpl. now rewrite Hc.
      * rewrite Hpos, Happ. apply IH. intros st' [=].
Qed.

Lemma scan_names_lower (s : list ascii) (pos : Z) (cur : option Z) :
  (forall st, cur = Some st -> st <= pos) ->
  Forall (fun se => match cur with Some st => st | None => pos end <= fst se)
         (scan_names s pos cur).
Proof.
  revert pos cur. induction s as [|c s IH]; intros pos cur Hcur.
  - cbn [scan_names]. destruct cur as [st|]; [|constructor].
    constructor; [simpl; lia | constructor].
  - cbn [scan_names]. destruct cur as [st|].
    + specialize (Hcur st eq_refl). destruct (name_tail c).
      * apply (IH (pos + 1) (Some st)). intros st' [= <-]. lia.
      * constructor; [simpl; lia|].
        eapply Forall_impl; [apply (IH (pos + 1) None); intros st' [=]|].
        intros [a b]; simpl; lia.
    + destruct (name_head c).
      * eapply Forall_impl;
          [apply (IH (pos + 1) (Some pos)); intros st' [= <-]; lia|].
        intros [a b]; simpl; lia.
      * eapply Forall_impl; [apply (IH (pos + 1) None); intros st' [=]|].
        intros [a b]; simpl; lia.
Qed.

Lemma scan_names_sorted (s : list ascii) (pos : Z) (cur : option Z) :
  (forall st, cur = Some st -> st <= pos) ->
  StronglySorted (fun x y => snd x < fst y) (scan_names s pos cur).
Proof.
  revert pos cur. induction s as [|c s IH]; intros pos cur Hcur.
  - cbn [scan_names]. destruct cur; repeat constructor.
  - cbn [scan_names]. destruct cur as [st|].
    + specialize (Hcur st eq_refl). destruct (name_tail c).
      * apply IH. intros st' [= <-]. lia.
      * constructor; [apply IH; intros st' [=]|].
        eapply Forall_impl;
          [apply (scan_names_lower s (pos + 1) None); intros st' [=]|].
        intros [a b]; simpl; lia.
    + destruct (name_head c); apply IH; intros st' [=]; lia.
Qed.

Lemma py_slice_in_range {A : Type} (l : list A) (a b : Z) :
  0 <= a <= b -> b <= Z.of_nat (length l) ->
  py_slice l a b = take (Z.to_nat (b - a)) (drop (Z.to_nat a) l).
Proof.
  intros Hab Hb. unfold py_slice. rewrite !py_clamp_nonneg by lia.
  now rewrite !Z.min_l by lia.
Qed.

Lemma finditer_spec (line : string) :
  Forall (fun se =>
            0 <= fst se < snd se
            /\ snd se <= str_len line
            /\ is_name_match (chars (str_slice line (fst se) (snd se))) = true
            /\ (forall c, chars line !! Z.to_nat (snd se) = Some c ->
                          name_tail c = false))
         (finditer line)
  /\ StronglySorted (fun x y => snd x < fst y) (finditer line).
Proof.
  split.
  - unfold finditer.
    eapply Forall_impl;
      [exact (scan_names_matches (chars line) [] None ltac:(intros st [=]))|].
    intros [a b]. cbn [fst snd app]. intros (Hab & Hb & Hm & Hafter).
    unfold str_len. rewrite <- length_chars.
    split; [exact Hab|]. split; [exact Hb|]. split; [|exact Hafter].
    unfold str_slice, chars at 1. rewrite list_ascii_of_string_of_list_ascii.
    rewrite py_slice_in_range by lia. exact Hm.
  - apply scan_names_sorted. intros st [=].
Qed.

(** X7.  The matches of the token pattern in a line, as [finditer]
    lists them, are non-empty spans inside the line, each before the
    next with at least one character between them; the text of a match
    is a letter or underscore followed by letters, digits, underscores,
    dots and brackets only, and the character after a match, if there
    is one, is none of these. *)
Theorem finditer_matches (line : string) :
  Forall (fun se =>
            0 <= fst se < snd se
            /\ snd se <= str_len line
            /\ is_name_match (chars (str_slice line (fst se) (snd se))) = true
            /\ (forall c, chars line !! Z.to_nat (snd se) = Some c ->
                          name_tail c = false))
         (finditer line)
  /\ StronglySorted (fun x y => snd x < fst y) (finditer line).
Proof. exact (finditer_spec line). Qed.

Lemma is_name_match_shape (l : list ascii) :
  is_name_match l = true ->
  exists c r, l = c :: r /\ name_head c = true /\ isdigit c = false.
Proof.
  destruct l as [|c r]; [discriminate|]. cbn [is_name_match].
  intros H. apply andb_true_iff in H as [Hc _].
  exists c, r. split; [reflexivity|]. split; [exact Hc|].
  unfold name_head in Hc. apply orb_true_iff in Hc as [Hc|Hc].
  - apply Ascii.eqb_eq in Hc. now subst.
  - unfold isalpha, isupper, islower, isdigit, in_range in *.
    destruct (Z.leb_spec 48 (code c)), (Z.leb_spec (code c) 57);
      try reflexivity.
    destruct (Z.leb_spec 65 (code c)), (Z.leb_spec (code c) 90),
             (Z.leb_spec 97 (code c)), (Z.leb_spec (code c) 122);
      simpl in Hc; try discriminate; lia.
Qed.

(** X8.  Every name [name_filter] returns for the matches of the token
    pattern in a line is the text of one of the matches: it is not
    empty, it begins with a letter or an underscore, never with a
    digit, and all its characters are letters, digits, underscores,
    dots or brackets. *)
Theorem names_are_pattern_matches (line : string) (cap : bool)
    (res : list string) (t : string) :
  name_filter line (finditer line) cap = Ret res ->
  t ∈ res ->
  (exists start end_, (start, end_) ∈ finditer line
                      /\ t = str_slice line start end_)
  /\ is_name_match (chars t) = true
  /\ (exists c r, chars t = c :: r /\ name_head c = true /\ isdigit c = false)
  /\ Forall (fun c => name_tail c = true) (chars t).
Proof.
  intros Hrun Ht.
  destruct (name_filter_loop_inv line cap (finditer line) [] res Hrun NoDup_nil_2)
    as [_ [extra [-> [Hsub _]]]].
  cbn [app] in Ht.
  assert (Hin : t ∈ span_texts line (finditer line)).
  { eapply elem_of_sublist; eassumption. }
  unfold span_texts in Hin. apply list_elem_of_In, in_map_iff in Hin
    as [[a b] [Hab Hin]]. cbn [fst snd] in Hab.
  destruct (finditer_spec line) as [Hall _].
  rewrite List.Forall_forall in Hall.
  destruct (Hall _ Hin) as (_ & _ & Hm & _). cbn [fst snd] in Hm.
  rewrite Hab in Hm.
  split; [exists a, b; split; [now apply list_elem_of_In | now symmetry]|].
  split; [exact Hm|]. split; [now apply is_name_match_shape|].
  destruct (chars t) as [|c r]; [discriminate|]. cbn [is_name_match] in Hm.
  apply andb_true_iff in Hm as [Hc Hr].
  constructor.
  - unfold name_tail. now rewrite Hc.
  - apply List.Forall_forall. now apply forallb_forall.
Qed.

Lemma names_are_pattern_matches_witness :
  name_filter "    int rc = fill(buf, n);"
              (finditer "    int rc = fill(buf, n);") true
  = Ret ["rc"; "buf"; "n"] /\
  "buf" ∈ ["rc"; "buf"; "n"] /\
  is_name_match (chars "buf") = true.
Proof.
  assert (H : name_filter "    int rc = fill(buf, n);"
                (finditer "    int rc = fill(buf, n);") true
              = Ret ["rc"; "buf"; "n"]) by reflexivity.
  assert (H2 : "buf" ∈ ["rc"; "buf"; "n"]).
  { apply list_elem_of_In. simpl. tauto. }
  split; [exact H|]. split; [exact H2|].
  exact (proj1 (proj2 (names_are_pattern_matches _ _ _ _ H H2))).
Defined.

(** * Further properties of the enricher *)

Lemma cond_kept_refl (l : list cond_path) : Forall2 cond_kept l l.
Proof. induction l; constructor; [now split | assumption]. Qed.

Lemma cond_body_kept (fs : FS) (w w' : warning) (c c' : cond_path) :
  cond_body fs w c = Ret (w', c') -> cond_kept c c'.
Proof.
  unfold cond_body. intros H.
  destruct (rglob fs (bfl (BL c))) as [|p [|q cands]].
  - injection H as <- <-. now split.
  - apply cond_excerpt_inv in H as [_ (lines & x & _ & _ & ->)]. now split.
  - apply bind_Ret_inv in H as [[flag src] [_ H]]. cbn [fst snd] in H.
    destruct (flag =? 1); [injection H as <- <-; now split|].
    destruct (flag =? -1); [injection H as <- <-; now split|].
    destruct src as [p'|]; [|discriminate].
    apply cond_excerpt_inv in H as [_ (lines & x & _ & _ & ->)]. now split.
Qed.

Lemma cond_loop_kept (fs : FS) (conds conds' : list cond_path) (w w' : warning) :
  cond_loop fs w conds = Ret (w', conds') -> Forall2 cond_kept conds conds'.
Proof.
  revert w w' conds'. induction conds as [|c conds IH]; intros w w' conds' H.
  - injection H as <- <-. constructor.
  - cbn [cond_loop] in H.
    apply bind_Ret_inv in H as [[w1 c1] [Hbody H]].
    apply bind_Ret_inv in H as [[w2 cs2] [Hloop H]].
    cbn [fst snd] in *. injection H as <- <-.
    constructor; [eapply cond_body_kept | eapply IH]; eassumption.
Qed.

Lemma enrich_resolved_kept (args : Args) (fs : FS) (w w' : warning) (p : Path) :
  enrich_resolved args fs w p = Ret w' ->
  Forall2 cond_kept (CFP w) (CFP w')
  /\ (DT w <> SVFTag.DefectType.PL -> CFP w' = CFP w).
Proof.
  unfold enrich_resolved. intros H.
  apply bind_Ret_inv in H as [lines [_ H]].
  apply bind_Ret_inv in H as [line [_ H]].
  apply bind_Ret_inv in H as [names [_ H]].
  apply bind_Ret_inv in H as [wl [Hwl H]].
  injection H as <-. cbn [DT set_Code set_V] in Hwl.
  destruct (String.eqb_spec (DT w) SVFTag.DefectType.PL) as [HPL|HPL].
  - apply bind_Ret_inv in Hwl as [[wst conds'] [Hloop Hwl]].
    cbn [fst snd] in Hwl. injection Hwl as <-.
    split; [|intros Hne; contradiction].
    apply cond_loop_kept in Hloop. exact Hloop.
  - injection Hwl as <-. split; [apply cond_kept_refl | reflexivity].
Qed.

Lemma enrich_kept (args : Args) (fs : FS) (w w' : warning) :
  enrich args fs w = Ret w' ->
  warning_kept w w' /\ (DT w <> SVFTag.DefectType.PL -> CFP w' = CFP w).
Proof.
  intros H.
  apply enrich_inv in H as [(_ & _ & HDT & HLoc & HFunc & HCFP & _)
                           |(p & w1 & _ & Hw1 & H)].
  - cbn in HDT, HLoc, HFunc, HCFP. unfold warning_kept.
    rewrite HDT, HLoc, HFunc, HCFP.
    repeat split; auto using cond_kept_refl.
  - pose proof (enrich_resolved_kept _ _ _ _ _ H) as [Hconds Hne].
    apply enrich_resolved_fields in H
      as (_ & _ & _ & _ & _ & _ & _ & _ & HDT & HLoc & HFunc & _).
    unfold warning_kept. rewrite HDT, HLoc, HFunc.
    destruct Hw1 as [-> | ->]; repeat split; auto.
Qed.

(** X9.  The enricher only adds to a record.  A record it returns has
    the defect type, the function name, the line and the column it came
    with, as many conditional free paths as before, each with its
    branch condition and its line; the conditional free paths of a
    record that is not a partial leak are as they were.  A report the
    run writes has a record for each record read, in the same order,
    with these keys as they were. *)
Theorem enrichment_keeps_input_keys :
  (forall (args : Args) (fs : FS) (w w' : warning),
      enrich args fs w = Ret w' ->
      warning_kept w w'
      /\ (DT w <> SVFTag.DefectType.PL -> CFP w' = CFP w)) /\
  (forall (args : Args) (fs : FS) (report out : list warning),
      run args fs report = Ret out ->
      length out = length report /\ Forall2 warning_kept report out).
Proof.
  split; [exact enrich_kept|].
  intros args fs report. induction report as [|w report IH]; intros out H.
  - injection H as <-. split; [reflexivity | constructor].
  - cbn [run] in H.
    apply bind_Ret_inv in H as [w' [Hw H]].
    apply bind_Ret_inv in H as [rest [Hrest H]].
    injection H as <-. destruct (IH _ Hrest) as [Hlen Hall].
    split; [simpl; now rewrite Hlen|].
    constructor; [exact (proj1 (enrich_kept _ _ _ _ Hw)) | exact Hall].
Qed.

Lemma enrichment_keeps_input_keys_witness :
  enrich demo_args demo_fs warn_three = Ret warn_three_out /\
  warning_kept warn_three warn_three_out.
Proof.
  assert (H : enrich demo_args demo_fs warn_three = Ret warn_three_out)
    by reflexivity.
  split; [exact H|].
  exact (proj1 (proj1 enrichment_keeps_input_keys _ _ _ _ H)).
Defined.

Lemma enrich_failed_record (args : Args) (fs : FS) (w w' : warning) :
  enrich args fs w = Ret w' ->
  Flag w' = SVFTag.false ->
  V w' = [] /\ Code w' = [] /\ CFP w' = CFP w /\ Loc w' = Loc w.
Proof.
  intros H Hflag.
  apply enrich_inv in H as [(_ & _ & _ & HLoc & _ & HCFP & HV & HCode)
                           |(p & w1 & _ & _ & H)].
  - cbn in HLoc, HCFP, HV, HCode. auto.
  - apply finalize_unconditional in H as [Ht _]. rewrite Ht in Hflag.
    discriminate.
Qed.

Lemma enrich_unresolved_returns (args : Args) (fs : FS) (w : warning) :
  1 <= ln (Loc w) ->
  (forall p, primary_resolution fs w <> Ok p) ->
  exists w', enrich args fs w = Ret w' /\ Flag w' = SVFTag.false.
Proof.
  intros Hln Hres. rewrite (enrich_by_resolution _ _ _ Hln).
  destruct (primary_resolution fs w) as [p| |].
  - now contradiction (Hres p).
  - eexists. split; reflexivity.
  - eexists. split; reflexivity.
Qed.

(** X10.  A record that leaves the enricher with status [False] has
    empty [Var] and [CodeNear] lists and its location and conditional
    free paths as they came: nothing was read from any file for it.  A
    record at a line number at least 1 whose primary location does not
    resolve does leave the enricher so: it raises nothing. *)
Theorem failed_record_is_bare :
  (forall (args : Args) (fs : FS) (w w' : warning),
      enrich args fs w = Ret w' ->
      Flag w' = SVFTag.false ->
      V w' = [] /\ Code w' = [] /\ CFP w' = CFP w /\ Loc w' = Loc w) /\
  (forall (args : Args) (fs : FS) (w : warning),
      1 <= ln (Loc w) ->
      (forall p, primary_resolution fs w <> Ok p) ->
      exists w', enrich args fs w = Ret w' /\ Flag w' = SVFTag.false).
Proof. split; [exact enrich_failed_record | exact enrich_unresolved_returns]. Qed.

Lemma failed_record_is_bare_witness :
  enrich demo_args demo_fs warn_missing = Ret warn_missing_out /\
  Flag warn_missing_out = SVFTag.false /\
  V warn_missing_out = [] /\ Code warn_missing_out = [] /\
  CFP warn_missing_out = CFP warn_missing /\
  Loc warn_missing_out = Loc warn_missing.
Proof.
  assert (H1 : enrich demo_args demo_fs warn_missing = Ret warn_missing_out)
    by reflexivity.
  assert (H2 : Flag warn_missing_out = SVFTag.false) by reflexivity.
  split; [exact H1|]. split; [exact H2|].
  exact (proj1 failed_record_is_bare _ _ _ _ H1 H2).
Defined.

(** X11.  For a record at line [L] (at least 1) that leaves the enricher
    with status [True], [Var] is what [name_filter] makes of line [L]
    of the resolved file, whatever the conditional free paths are: it
    has no duplicates and no keyword, and with the all-caps policy no
    name without a lower-case letter.  With a copy range [R] at least
    0, [CodeNear] has at most [2 R + 1] lines and that same line,
    stripped, is its entry number [L - max 1 (L - R)]. *)
Theorem var_and_excerpt_of_warning_line (args : Args) (fs : FS)
    (w w' : warning) :
  1 <= ln (Loc w) ->
  enrich args fs w = Ret w' ->
  Flag w' = SVFTag.true ->
  exists p line,
    primary_resolution fs w = Ok p
    /\ lines_of fs p !! Z.to_nat (ln (Loc w) - 1) = Some line
    /\ name_filter line (finditer line) (cap_not_name args) = Ret (V w')
    /\ NoDup (V w')
    /\ (forall t, t ∈ V w' ->
          (t ∉ C_CPP_KEYWORDS)
          /\ (cap_not_name args = true -> are_all_letters_uppercase t = false))
    /\ (0 <= copy_range args ->
        Z.of_nat (length (Code w')) <= 2 * copy_range args + 1
        /\ Code w' !! Z.to_nat (ln (Loc w)
                                - Z.max 1 (ln (Loc w) - copy_range args))
           = Some (strip line)).
Proof.
  intros HL Hrun Hflag.
  destruct (enrich_success_inv _ _ _ _ HL Hrun Hflag) as (p & w1 & Hres & Hw1 & Hr).
  apply enrich_resolved_fields in Hr
    as (lines & line & names & Hopen & Hline & Hnames & _ & _ & _ & _ & _
        & HV & HCode & _).
  assert (Hln : ln (Loc w1) = ln (Loc w))
    by (destruct Hw1 as [-> | ->]; reflexivity).
  rewrite Hln in *.
  apply py_index_Ret_inv in Hline as [Hlt Hlk]; [|lia].
  exists p, line. rewrite (lines_of_Ret _ _ _ Hopen), HV.
  split; [exact Hres|]. split; [exact Hlk|]. split; [exact Hnames|].
  destruct (name_filter_loop_inv line (cap_not_name args) (finditer line) []
              names Hnames NoDup_nil_2) as [Hnd [extra [-> [_ Hall]]]].
  split; [exact Hnd|]. split.
  - intros t Ht. rewrite Forall_forall in Hall. now apply Hall.
  - intros HR.
    destruct (excerpt_window lines (ln (Loc w)) (copy_range args) HL HR)
      as [Hlen Hat].
    rewrite HCode, length_fmap. split; [lia|].
    rewrite list_lookup_fmap.
    rewrite (Hat (ln (Loc w))) by lia. now rewrite Hlk.
Qed.

Lemma var_and_excerpt_of_warning_line_witness :
  1 <= ln (Loc warn_line10) /\
  enrich demo_args demo_fs warn_line10 = Ret warn_line10_out /\
  Flag warn_line10_out = SVFTag.true /\
  V warn_line10_out = ["rc"; "buf"; "n"] /\
  Code warn_line10_out !! 5%nat = Some "int rc = fill(buf, n);" /\
  exists p line,
    primary_resolution demo_fs warn_line10 = Ok p
    /\ lines_of demo_fs p !! Z.to_nat (ln (Loc warn_line10) - 1) = Some line
    /\ name_filter line (finditer line) (cap_not_name demo_args)
       = Ret (V warn_line10_out).
Proof.
  assert (H1 : 1 <= ln (Loc warn_line10)) by (simpl; lia).
  assert (H2 : enrich demo_args demo_fs warn_line10 = Ret warn_line10_out)
    by reflexivity.
  assert (H3 : Flag warn_line10_out = SVFTag.true) by reflexivity.
  split; [exact H1|]. split; [exact H2|]. split; [exact H3|].
  split; [reflexivity|]. split; [reflexivity|].
  destruct (var_and_excerpt_of_warning_line _ _ _ _ H1 H2 H3)
    as (p & line & Hp & Hl & Hn & _).
  exists p, line. exact (conj Hp (conj Hl Hn)).
Defined.

(** ** When the loop body raises *)

Lemma cond_resolution_In (fs : FS) (loc : location) (c : cond_path) (q : Path) :
  cond_resolution fs loc c = Ok q -> In q (map fst (files fs)).
Proof.
  unfold cond_resolution.
  pose proof (rglob_Forall fs (bfl (BL c))) as Hall.
  rewrite List.Forall_forall in Hall.
  destruct (rglob fs (bfl (BL c))) as [|a [|b cands]].
  - discriminate.
  - intros [= ->]. apply Hall. now left.
  - intros H. apply classify_Ok_In in H.
    assert (Hin : In q (remaining fs (ln loc) (cl loc) (a :: b :: cands)
                                  EmptyString)) by (rewrite H; now left).
    unfold remaining in Hin. apply filter_In in Hin as [Hin _]. now apply Hall.
Qed.

Lemma cond_excerpt_beyond (fs : FS) (w : warning) (c : cond_path) (l : Z)
    (q : Path) :
  In q (map fst (files fs)) ->
  Z.of_nat (length (lines_of fs q)) < l ->
  cond_excerpt fs w c l q = Raise IndexError.
Proof.
  intros Hin Hl. unfold cond_excerpt.
  rewrite (lines_of_open fs q Hin). cbn [mbind exc_bind].
  rewrite py_index_ge by lia. reflexivity.
Qed.

Lemma cond_body_beyond (fs : FS) (w : warning) (c : cond_path) :
  1 <= ln (Loc w) ->
  cond_beyond fs (Loc w) c ->
  cond_body fs w c = Raise IndexError.
Proof.
  intros Hln (q & Hres & Hlen).
  pose proof (cond_resolution_In _ _ _ _ Hres) as Hin.
  unfold cond_resolution in Hres. unfold cond_body.
  pose proof (rglob_Forall fs (bfl (BL c))) as Hall.
  destruct (rglob fs (bfl (BL c))) as [|a [|b cands]].
  - discriminate.
  - injection Hres as ->. now apply cond_excerpt_beyond.
  - rewrite (deal_duplicate_spec _ _ _ _ _ Hln Hall), Hres.
    cbn. now apply cond_excerpt_beyond.
Qed.

Lemma cond_in_range_or_beyond (fs : FS) (loc : location) (c : cond_path) :
  1 <= bln (BL c) ->
  cond_in_range fs loc c \/ cond_beyond fs loc c.
Proof.
  intros Hb. unfold cond_in_range, cond_beyond.
  destruct (cond_resolution fs loc c) as [q| |].
  - destruct (Z.lt_ge_cases (Z.of_nat (length (lines_of fs q))) (bln (BL c))).
    + right. eauto.
    + left. intros p [= <-]. lia.
  - left. discriminate.
  - left. discriminate.
Qed.

Lemma cond_loop_beyond (fs : FS) (conds : list cond_path) (w : warning) :
  1 <= ln (Loc w) ->
  Forall (fun c => 1 <= bln (BL c)) conds ->
  Exists (cond_beyond fs (Loc w)) conds ->
  cond_loop fs w conds = Raise IndexError.
Proof.
  intros Hln Hpos Hex. revert w Hln Hex.
  induction Hpos as [|c conds Hc Hpos IH]; intros w Hln Hex.
  - inversion Hex.
  - cbn [cond_loop].
    destruct (cond_in_range_or_beyond fs (Loc w) c Hc) as [Hin|Hbad].
    + destruct (cond_body_total fs w c Hln Hin) as (w1 & c1 & Hbody).
      rewrite Hbody. cbn [mbind exc_bind fst snd].
      pose proof (cond_body_payload _ _ _ _ _ Hbody) as (_ & HLoc & _).
      rewrite IH; [reflexivity | now rewrite HLoc |].
      rewrite HLoc. inversion Hex as [? ? Hbad|? ? Hrest]; subst; [|exact Hrest].
      destruct Hbad as (q & Hq & Hlen). specialize (Hin q Hq). lia.
    + now rewrite (cond_body_beyond fs w c Hln Hbad).
Qed.

Lemma enrich_resolved_beyond (args : Args) (fs : FS) (w : warning) (p : Path) :
  In p (map fst (files fs)) ->
  1 <= ln (Loc w) ->
  Forall (fun c => 1 <= bln (BL c)) (CFP w) ->
  Z.of_nat (length (lines_of fs p)) < ln (Loc w)
  \/ (DT w = SVFTag.DefectType.PL /\ Exists (cond_beyond fs (Loc w)) (CFP w)) ->
  enrich_resolved args fs w p = Raise IndexError.
Proof.
  intros Hin Hln Hpos Hbad. unfold enrich_resolved.
  rewrite (lines_of_open fs p Hin). cbn [mbind exc_bind].
  destruct (Z.lt_ge_cases (Z.of_nat (length (lines_of fs p))) (ln (Loc w)))
    as [Hlt|Hge].
  { rewrite py_index_ge by lia. reflexivity. }
  destruct Hbad as [Hlt|[HPL Hex]]; [lia|].
  destruct (py_index_total (lines_of fs p) (ln (Loc w) - 1)) as [line ->]; [lia|].
  cbn [mbind exc_bind].
  destruct (name_filter_finditer_total line (cap_not_name args)) as [names ->].
  cbn [mbind exc_bind DT set_Code set_V]. rewrite HPL.
  change (SVFTag.DefectType.PL =? SVFTag.DefectType.PL)%string with true.
  cbv iota.
  match goal with |- context [cond_loop fs ?w1 ?cs] =>
    rewrite (cond_loop_beyond fs cs w1 Hln Hpos Hex) end.
  reflexivity.
Qed.

Lemma Exists_dec_in_range (fs : FS) (loc : location) (conds : list cond_path) :
  Forall (fun c => 1 <= bln (BL c)) conds ->
  Exists (cond_beyond fs loc) conds \/ Forall (cond_in_range fs loc) conds.
Proof.
  induction 1 as [|c conds Hc _ IH]; [right; constructor|].
  destruct (cond_in_range_or_beyond fs loc c Hc) as [Hin|Hbad].
  - destruct IH as [Hex|Hall]; [left; now constructor 2 | right; now constructor].
  - left. now constructor 1.
Qed.

(** X12.  For a record at a line number at least 1 whose conditional
    free paths are at line numbers at least 1, the loop body raises
    exactly when the primary location resolves to a file and either
    that file ends before the line of the warning, or the record is a
    partial leak and one of its conditional free paths resolves to a
    file that ends before the line of the branch; what it raises is
    [IndexError]. *)
Theorem enrich_raises_exactly (args : Args) (fs : FS) (w : warning) :
  1 <= ln (Loc w) ->
  Forall (fun c => 1 <= bln (BL c)) (CFP w) ->
  ((exists e, enrich args fs w = Raise e) <->
   (exists p, primary_resolution fs w = Ok p /\
              (Z.of_nat (length (lines_of fs p)) < ln (Loc w)
               \/ (DT w = SVFTag.DefectType.PL
                   /\ Exists (cond_beyond fs (Loc w)) (CFP w)))))
  /\ (forall e, enrich args fs w = Raise e -> e = IndexError).
Proof.
  intros Hln Hpos.
  assert (Hraise : forall p,
             primary_resolution fs w = Ok p ->
             Z.of_nat (length (lines_of fs p)) < ln (Loc w)
             \/ (DT w = SVFTag.DefectType.PL
                 /\ Exists (cond_beyond fs (Loc w)) (CFP w)) ->
             enrich args fs w = Raise IndexError).
  { intros p Hres Hbad. rewrite (enrich_by_resolution _ _ _ Hln), Hres.
    pose proof (primary_resolution_In _ _ _ Hres) as Hin.
    apply rglob_In in Hin as [Hin _].
    destruct (rglob fs (fl (Loc w))) as [|a [|b cands]];
      now apply enrich_resolved_beyond. }
  assert (Hdec : (exists p, primary_resolution fs w = Ok p /\
                    (Z.of_nat (length (lines_of fs p)) < ln (Loc w)
                     \/ (DT w = SVFTag.DefectType.PL
                         /\ Exists (cond_beyond fs (Loc w)) (CFP w))))
                 \/ exists w', enrich args fs w = Ret w').
  { destruct (enrich args fs w) as [w'|e] eqn:He; [right; eauto|].
    left. destruct (primary_resolution fs w) as [p| |] eqn:Hres.
    - exists p. split; [reflexivity|].
      destruct (Z.lt_ge_cases (Z.of_nat (length (lines_of fs p))) (ln (Loc w)))
        as [Hlt|Hge]; [now left|].
      right. destruct (string_dec (DT w) SVFTag.DefectType.PL) as [HPL|HPL].
      + split; [exact HPL|].
        destruct (Exists_dec_in_range fs (Loc w) (CFP w) Hpos) as [Hex|Hall];
          [exact Hex|].
        exfalso.
        destruct (enrich_total args fs w p Hres) as [w' [Hw' _]];
          [split; [exact Hln | lia] | intros _; exact Hall | congruence].
      + exfalso.
        destruct (enrich_total args fs w p Hres) as [w' [Hw' _]];
          [split; [exact Hln | lia] | intros HPL'; contradiction | congruence].
    - destruct (enrich_unresolved_returns args fs w Hln) as [w' [Hw' _]];
        [rewrite Hres; discriminate | congruence].
    - destruct (enrich_unresolved_returns args fs w Hln) as [w' [Hw' _]];
        [rewrite Hres; discriminate | congruence]. }
  split; [split|].
  - intros [e He]. destruct Hdec as [Hbad|[w' Hw']]; [exact Hbad | congruence].
  - intros (p & Hres & Hbad). exists IndexError. now apply (Hraise p).
  - intros e He. destruct Hdec as [(p & Hres & Hbad)|[w' Hw']]; [|congruence].
    rewrite (Hraise p Hres Hbad) in He. now injection He as <-.
Qed.

Lemma enrich_raises_exactly_witness :
  1 <= ln (Loc warn_branch40) /\
  Forall (fun c => 1 <= bln (BL c)) (CFP warn_branch40) /\
  primary_resolution demo_fs warn_branch40 = Ok ["src"; "leak.c"] /\
  Exists (cond_beyond demo_fs (Loc warn_branch40)) (CFP warn_branch40) /\
  exists e, enrich demo_args demo_fs warn_branch40 = Raise e.
Proof.
  assert (H1 : 1 <= ln (Loc warn_branch40)) by (simpl; lia).
  assert (H2 : Forall (fun c => 1 <= bln (BL c)) (CFP warn_branch40)).
  { repeat constructor; simpl; lia. }
  assert (H3 : primary_resolution demo_fs warn_branch40 = Ok ["src"; "leak.c"])
    by reflexivity.
  assert (H4 : Exists (cond_beyond demo_fs (Loc warn_branch40))
                      (CFP warn_branch40)).
  { constructor 2. constructor 1. exists ["src"; "leak.c"].
    split; [reflexivity | vm_compute; reflexivity]. }
  split; [exact H1|]. split; [exact H2|]. split; [exact H3|]. split; [exact H4|].
  apply (proj1 (enrich_raises_exactly demo_args demo_fs warn_branch40 H1 H2)).
  exists ["src"; "leak.c"]. split; [exact H3|]. right. split; [reflexivity | exact H4].
Defined.

(** ** The run over a report *)

Lemma run_Ret_iff (args : Args) (fs : FS) (report out : list warning) :
  run args fs report = Ret out
  <-> Forall2 (fun w w' => enrich args fs w = Ret w') report out.
Proof.
  revert out. induction report as [|w report IH]; intros out.
  - cbn [run]. split.
    + intros [= <-]. constructor.
    + intros H. inversion H. reflexivity.
  - cbn [run]. split.
    + intros H. apply bind_Ret_inv in H as [w' [Hw H]].
      apply bind_Ret_inv in H as [rest [Hrest H]]. injection H as <-.
      constructor; [exact Hw | now apply IH].
    + intros H. inversion H as [|? w' ? rest Hw Hrest]; subst.
      rewrite Hw. cbn [mbind exc_bind].
      apply IH in Hrest. rewrite Hrest. reflexivity.
Qed.

Lemma run_Raise_iff (args : Args) (fs : FS) (report : list warning) (e : pyexn) :
  run args fs report = Raise e
  <-> exists before w after,
        report = before ++ w :: after
        /\ Forall (fun x => exists x', enrich args fs x = Ret x') before
        /\ enrich args fs w = Raise e.
Proof.
  induction report as [|w report IH].
  - cbn [run]. split; [discriminate|].
    intros (before & x & after & Heq & _). now destruct before.
  - cbn [run]. split.
    + intros H. destruct (enrich args fs w) as [w'|e'] eqn:Hw.
      * cbn [mbind exc_bind] in H.
        destruct (run args fs report) as [rest|e''] eqn:Hrest; [discriminate|].
        cbn in H. injection H as ->.
        destruct (proj1 IH eq_refl) as (before & x & after & -> & Hb & Hx).
        exists (w :: before), x, after. repeat split; [|exact Hx].
        constructor; [eauto | exact Hb].
      * cbn in H. injection H as ->.
        exists [], w, report. repeat split; [constructor | exact Hw].
    + intros (before & x & after & Heq & Hb & Hx).
      destruct before as [|b before]; cbn [app] in Heq; injection Heq as -> ->.
      * now rewrite Hx.
      * inversion Hb as [|? ? [b' Hb'] Hb'']; subst. rewrite Hb'.
        cbn [mbind exc_bind].
        rewrite (proj2 IH); [reflexivity|].
        exists before, x, after. auto.
Qed.

(** X13.  The run writes a report exactly when the loop body returns
    for every record, and what it writes is the list of what the body
    returns, record by record; otherwise nothing is written, and the
    exception that ends the run is the one of the first record for
    which the body raises. *)
Theorem run_all_or_nothing (args : Args) (fs : FS) (report : list warning) :
  (forall out,
      run args fs report = Ret out
      <-> Forall2 (fun w w' => enrich args fs w = Ret w') report out) /\
  (forall e,
      run args fs report = Raise e
      <-> exists before w after,
            report = before ++ w :: after
            /\ Forall (fun x => exists x', enrich args fs x = Ret x') before
            /\ enrich args fs w = Raise e).
Proof.
  split; [intros out; apply run_Ret_iff | intros e; apply run_Raise_iff].
Qed.

(** * The console messages *)

Lemma cond_body_log_snd (fs : FS) (cnt : Z) (w : warning) (c : cond_path) :
  snd (cond_body_log fs cnt w c) = cond_body fs w c.
Proof.
  unfold cond_body_log, cond_body.
  destruct (rglob fs (bfl (BL c))) as [|p [|q cands]]; [reflexivity..|].
  destruct (deal_duplicate _ _ _ _ _) as [[flag src]|e]; [|reflexivity].
  cbn [fst snd mbind exc_bind].
  destruct (flag =? 1); [reflexivity|]. now destruct (flag =? -1).
Qed.

Lemma cond_loop_log_snd (fs : FS) (cnt : Z) (conds : list cond_path)
    (w : warning) :
  snd (cond_loop_log fs cnt w conds) = cond_loop fs w conds.
Proof.
  revert w. induction conds as [|c conds IH]; intros w; [reflexivity|].
  cbn [cond_loop_log cond_loop].
  rewrite <- (cond_body_log_snd fs cnt w c).
  destruct (cond_body_log fs cnt w c) as [out [r|e]]; [|reflexivity].
  cbn [snd mbind exc_bind]. rewrite <- (IH (fst r)).
  now destruct (cond_loop_log fs cnt (fst r) conds) as [out' [r'|e']].
Qed.

Lemma enrich_resolved_log_snd (args : Args) (fs : FS) (cnt : Z) (w : warning)
    (p : Path) :
  snd (enrich_resolved_log args fs cnt w p) = enrich_resolved args fs w p.
Proof.
  unfold enrich_resolved_log, enrich_resolved.
  destruct (open_readlines fs (absolute fs p)) as [lines|e]; [|reflexivity].
  cbn [mbind exc_bind].
  destruct (py_index lines (ln (Loc w) - 1)) as [line|e]; [|reflexivity].
  cbn [mbind exc_bind].
  destruct (name_filter line (finditer line) (cap_not_name args))
    as [names|e]; [|reflexivity].
  cbn [mbind exc_bind]. cbn [DT set_Code set_V CFP].
  destruct (DT w =? SVFTag.DefectType.PL)%string; [|reflexivity].
  match goal with |- context [cond_loop fs ?w1 ?cs] =>
    rewrite <- (cond_loop_log_snd fs cnt cs w1);
    destruct (cond_loop_log fs cnt w1 cs) as [out [r|e]] end; reflexivity.
Qed.

Lemma enrich_log_snd (args : Args) (fs : FS) (cnt : Z) (w : warning) :
  snd (enrich_log args fs cnt w) = enrich args fs w.
Proof.
  unfold enrich_log, enrich.
  destruct (rglob fs (fl (Loc (init_keys w)))) as [|p [|q cands]];
    [reflexivity | apply enrich_resolved_log_snd |].
  destruct (deal_duplicate _ _ _ _ _) as [[flag src]|e]; [|reflexivity].
  cbn [fst snd mbind exc_bind].
  destruct (flag =? 1); [reflexivity|]. destruct (flag =? -1); [reflexivity|].
  destruct src as [p'|]; [apply enrich_resolved_log_snd | reflexivity].
Qed.

Lemma run_log_snd (args : Args) (fs : FS) (report : list warning) (cnt : Z) :
  snd (run_log args fs cnt report) = run args fs report.
Proof.
  revert cnt. induction report as [|w report IH]; intros cnt; [reflexivity|].
  cbn [run_log run]. rewrite <- (enrich_log_snd args fs (cnt + 1) w).
  destruct (enrich_log args fs (cnt + 1) w) as [out [w'|e]]; [|reflexivity].
  cbn [snd mbind exc_bind]. rewrite <- (IH (cnt + 1)).
  now destruct (run_log args fs (cnt + 1) report) as [out' [r'|e']].
Qed.

Lemma cond_body_log_fst (fs : FS) (cnt : Z) (w : warning) (c : cond_path) :
  1 <= ln (Loc w) ->
  fst (cond_body_log fs cnt w c) = cond_messages fs (Loc w) cnt c.
Proof.
  intros Hln. unfold cond_body_log, cond_messages, cond_resolution.
  pose proof (rglob_Forall fs (bfl (BL c))) as Hall.
  destruct (rglob fs (bfl (BL c))) as [|p [|q cands]]; [reflexivity..|].
  rewrite (deal_duplicate_spec _ _ _ _ _ Hln Hall).
  now destruct (classify _).
Qed.

Lemma cond_loop_log_fst (fs : FS) (cnt : Z) (conds : list cond_path)
    (w : warning) (out : list string) (r : warning * list cond_path) :
  1 <= ln (Loc w) ->
  cond_loop_log fs cnt w conds = (out, Ret r) ->
  out = flat_map (cond_messages fs (Loc w) cnt) conds.
Proof.
  revert w out r. induction conds as [|c conds IH]; intros w out r Hln H.
  - now injection H as <- _.
  - cbn [cond_loop_log flat_map] in H |- *.
    rewrite <- (cond_body_log_fst fs cnt w c Hln).
    pose proof (cond_body_log_snd fs cnt w c) as Hsnd.
    destruct (cond_body_log fs cnt w c) as [o1 [r1|e1]]; [|discriminate].
    cbn [fst snd] in Hsnd |- *. symmetry in Hsnd.
    pose proof (cond_body_payload fs w (fst r1) c (snd r1)) as Hpay.
    rewrite <- surjective_pairing in Hpay.
    destruct (Hpay Hsnd) as (_ & HLoc & _).
    destruct (cond_loop_log fs cnt (fst r1) conds) as [o2 [r2|e2]] eqn:Hrest;
      [|discriminate].
    injection H as <- _. f_equal.
    rewrite <- HLoc. eapply IH; [now rewrite HLoc | exact Hrest].
Qed.

Lemma enrich_resolved_log_fst (args : Args) (fs : FS) (cnt : Z) (w w' : warning)
    (p : Path) (out : list string) :
  1 <= ln (Loc w) ->
  enrich_resolved_log args fs cnt w p = (out, Ret w') ->
  out = if String.eqb (DT w) SVFTag.DefectType.PL
        then flat_map (cond_messages fs (Loc w) cnt) (CFP w)
        else [].
Proof.
  intros Hln. unfold enrich_resolved_log.
  destruct (open_readlines fs (absolute fs p)) as [lines|e]; [|discriminate].
  destruct (py_index lines (ln (Loc w) - 1)) as [line|e]; [|discriminate].
  destruct (name_filter line (finditer line) (cap_not_name args))
    as [names|e]; [|discriminate].
  cbn [DT set_Code set_V CFP].
  destruct (DT w =? SVFTag.DefectType.PL)%string; [|now intros [= <- _]].
  match goal with |- context [cond_loop_log fs cnt ?w1 ?cs] =>
    destruct (cond_loop_log fs cnt w1 cs) as [o [r|e]] eqn:Hloop end;
    [|discriminate].
  intros [= <- _]. now apply cond_loop_log_fst in Hloop.
Qed.

Lemma enrich_log_fst (args : Args) (fs : FS) (cnt : Z) (w w' : warning)
    (out : list string) :
  1 <= ln (Loc w) ->
  enrich_log args fs cnt w = (out, Ret w') ->
  out = record_messages fs cnt w.
Proof.
  intros Hln. unfold enrich_log, record_messages, primary_resolution.
  cbn [init_keys Loc fl ln cl Func].
  pose proof (rglob_Forall fs (fl (Loc w))) as Hall.
  destruct (rglob fs (fl (Loc w))) as [|p [|q cands]].
  - now intros [= <- _].
  - intros H. now apply enrich_resolved_log_fst in H.
  - rewrite (deal_duplicate_spec _ _ _ _ _ Hln Hall).
    destruct (classify _) as [p'| |]; cbn [as_tuple fst snd].
    + change (0 =? 1) with false. change (0 =? -1) with false. cbv iota.
      intros H. now apply enrich_resolved_log_fst in H.
    + now intros [= <- _].
    + now intros [= <- _].
Qed.

Lemma cond_messages_length (fs : FS) (loc : location) (cnt : Z)
    (conds : list cond_path) :
  length (flat_map (cond_messages fs loc cnt) conds)
  = length (List.filter (unresolved fs loc) conds).
Proof.
  induction conds as [|c conds IH]; [reflexivity|].
  cbn [flat_map List.filter]. rewrite length_app, IH.
  unfold cond_messages, unresolved.
  destruct (cond_resolution fs loc c); [reflexivity | reflexivity |].
  now destruct (rglob fs (bfl (BL c))).
Qed.

Lemma cond_messages_warning (fs : FS) (loc : location) (cnt : Z)
    (conds : list cond_path) :
  Forall is_warning_line (flat_map (cond_messages fs loc cnt) conds).
Proof.
  induction conds as [|c conds IH]; [constructor|].
  cbn [flat_map]. apply Forall_app. split; [|exact IH].
  unfold cond_messages.
  destruct (cond_resolution fs loc c); [constructor | |].
  - repeat constructor. eexists. reflexivity.
  - destruct (rglob fs (bfl (BL c))); repeat constructor; eexists; reflexivity.
Qed.

Lemma record_messages_warning (fs : FS) (cnt : Z) (w : warning) :
  Forall is_warning_line (record_messages fs cnt w).
Proof.
  unfold record_messages. destruct (primary_resolution fs w).
  - destruct (DT w =? SVFTag.DefectType.PL)%string;
      [apply cond_messages_warning | constructor].
  - repeat constructor. eexists. reflexivity.
  - repeat constructor. eexists. reflexivity.
Qed.

(** X14.  For the warning number [cnt], at a line number at least 1,
    that the loop body returns: printing changes nothing of the record;
    a record that comes out [False] has printed one warning line, with
    the file name as reported and [cnt]; a record that comes out [True]
    has printed one warning line for each of its conditional free paths
    that did not resolve, in their order, and nothing else: the console
    is where the failure of a conditional free path can be seen. *)
Theorem record_log (args : Args) (fs : FS) (cnt : Z) (w w' : warning)
    (out : list string) :
  1 <= ln (Loc w) ->
  enrich_log args fs cnt w = (out, Ret w') ->
  enrich args fs w = Ret w'
  /\ out = record_messages fs cnt w
  /\ Forall is_warning_line out
  /\ (Flag w' = SVFTag.false ->
      out = [SRT_log false (msg_cannot_find (fl (Loc w)) cnt) "warning"]
      \/ out = [SRT_log false (msg_duplicated (fl (Loc w)) cnt) "warning"])
  /\ (Flag w' = SVFTag.true ->
      length out
      = if String.eqb (DT w) SVFTag.DefectType.PL
        then length (List.filter (unresolved fs (Loc w)) (CFP w))
        else 0%nat).
Proof.
  intros Hln H.
  assert (Hrun : enrich args fs w = Ret w').
  { rewrite <- (enrich_log_snd args fs cnt w). now rewrite H. }
  pose proof (enrich_log_fst _ _ _ _ _ _ Hln H) as Hout.
  pose proof (enrich_status_by_resolution _ _ _ _ Hln Hrun) as Hst.
  split; [exact Hrun|]. split; [exact Hout|].
  split; [rewrite Hout; apply record_messages_warning|].
  rewrite Hout. unfold record_messages.
  destruct (primary_resolution fs w) as [p| |]; destruct Hst as [Hf _]; split.
  - intros Hfalse. rewrite Hf in Hfalse. discriminate.
  - intros _. destruct (DT w =? SVFTag.DefectType.PL)%string;
      [apply cond_messages_length | reflexivity].
  - intros _. now right.
  - intros Htrue. rewrite Hf in Htrue. discriminate.
  - intros _. now left.
  - intros Htrue. rewrite Hf in Htrue. discriminate.
Qed.

Lemma record_log_witness :
  1 <= ln (Loc warn_three) /\
  enrich_log demo_args demo_fs 2 warn_three
  = ([SRT_log false (msg_cond_no_match "gone.c" 2) "warning"],
     Ret warn_three_out) /\
  Flag warn_three_out = SVFTag.true /\
  length [SRT_log false (msg_cond_no_match "gone.c" 2) "warning"]
  = length (List.filter (unresolved demo_fs (Loc warn_three)) (CFP warn_three)).
Proof.
  assert (H1 : 1 <= ln (Loc warn_three)) by (simpl; lia).
  assert (H2 : enrich_log demo_args demo_fs 2 warn_three
               = ([SRT_log false (msg_cond_no_match "gone.c" 2) "warning"],
                  Ret warn_three_out)) by reflexivity.
  split; [exact H1|]. split; [exact H2|]. split; [reflexivity|].
  destruct (record_log _ _ _ _ _ _ H1 H2) as (_ & _ & _ & _ & H).
  exact (H eq_refl).
Defined.

Lemma cond_body_log_warning (fs : FS) (cnt : Z) (w : warning) (c : cond_path) :
  Forall is_warning_line (fst (cond_body_log fs cnt w c)).
Proof.
  unfold cond_body_log.
  destruct (rglob fs (bfl (BL c))) as [|p [|q cands]].
  - repeat constructor. eexists. reflexivity.
  - constructor.
  - destruct (deal_duplicate _ _ _ _ _) as [[flag src]|e]; [|constructor].
    cbn [fst snd]. destruct (flag =? 1).
    { repeat constructor. eexists. reflexivity. }
    destruct (flag =? -1); [|constructor].
    repeat constructor. eexists. reflexivity.
Qed.

Lemma cond_loop_log_warning (fs : FS) (cnt : Z) (conds : list cond_path)
    (w : warning) :
  Forall is_warning_line (fst (cond_loop_log fs cnt w conds)).
Proof.
  revert w. induction conds as [|c conds IH]; intros w; [constructor|].
  cbn [cond_loop_log].
  pose proof (cond_body_log_warning fs cnt w c) as Hb.
  destruct (cond_body_log fs cnt w c) as [out [r|e]]; [|exact Hb].
  specialize (IH (fst r)).
  destruct (cond_loop_log fs cnt (fst r) conds) as [out' [r'|e']];
    cbn [fst] in *; apply Forall_app; now split.
Qed.

Lemma enrich_resolved_log_warning (args : Args) (fs : FS) (cnt : Z)
    (w : warning) (p : Path) :
  Forall is_warning_line (fst (enrich_resolved_log args fs cnt w p)).
Proof.
  unfold enrich_resolved_log.
  destruct (open_readlines fs (absolute fs p)) as [lines|e]; [|constructor].
  destruct (py_index lines (ln (Loc w) - 1)) as [line|e]; [|constructor].
  destruct (name_filter line (finditer line) (cap_not_name args))
    as [names|e]; [|constructor].
  destruct (String.eqb _ _); [|constructor].
  match goal with |- context [cond_loop_log fs cnt ?w1 ?cs] =>
    pose proof (cond_loop_log_warning fs cnt cs w1) as Hl;
    destruct (cond_loop_log fs cnt w1 cs) as [out [r|e]] end; exact Hl.
Qed.

Lemma enrich_log_warning (args : Args) (fs : FS) (cnt : Z) (w : warning) :
  Forall is_warning_line (fst (enrich_log args fs cnt w)).
Proof.
  unfold enrich_log.
  destruct (rglob fs (fl (Loc (init_keys w)))) as [|p [|q cands]].
  - repeat constructor. eexists. reflexivity.
  - apply enrich_resolved_log_warning.
  - destruct (deal_duplicate _ _ _ _ _) as [[flag src]|e]; [|constructor].
    cbn [fst snd]. destruct (flag =? 1).
    { repeat constructor. eexists. reflexivity. }
    destruct (flag =? -1).
    { repeat constructor. eexists. reflexivity. }
    destruct src as [p'|]; [apply enrich_resolved_log_warning | constructor].
Qed.

Lemma run_log_warning (args : Args) (fs : FS) (report : list warning) (cnt : Z) :
  Forall is_warning_line (fst (run_log args fs cnt report)).
Proof.
  revert cnt. induction report as [|w report IH]; intros cnt; [constructor|].
  cbn [run_log].
  pose proof (enrich_log_warning args fs (cnt + 1) w) as Hb.
  destruct (enrich_log args fs (cnt + 1) w) as [out [w'|e]]; [|exact Hb].
  specialize (IH (cnt + 1)).
  destruct (run_log args fs (cnt + 1) report) as [out' [r'|e']];
    cbn [fst] in *; apply Forall_app; now split.
Qed.

Lemma run_log_fst (args : Args) (fs : FS) (report : list warning) (cnt : Z)
    (out : list string) (written : list warning) :
  Forall (fun w => 1 <= ln (Loc w)) report ->
  run_log args fs cnt report = (out, Ret written) ->
  out = concat (imap (fun i w => record_messages fs (cnt + 1 + Z.of_nat i) w)
                     report).
Proof.
  intros Hall. revert cnt out written.
  induction Hall as [|w report Hw Hall IH]; intros cnt out written H.
  - now injection H as <- _.
  - cbn [run_log] in H. rewrite imap_cons. cbn [concat].
    destruct (enrich_log args fs (cnt + 1) w) as [o1 [w'|e]] eqn:Hlog;
      [|discriminate].
    destruct (run_log args fs (cnt + 1) report) as [o2 [rest|e]] eqn:Hrest;
      [|discriminate].
    injection H as <- _.
    rewrite (enrich_log_fst _ _ _ _ _ _ Hw Hlog).
    rewrite (IH _ _ _ Hrest). rewrite Z.add_0_r. do 2 f_equal.
    apply imap_ext. intros i x _. cbn. f_equal. lia.
Qed.

Lemma warning_line_not_green (line msg : string) :
  is_warning_line line -> line <> SRT_log true msg EmptyString.
Proof. intros [m ->]. cbn. congruence. Qed.

Lemma hello_not_dumped (args : Args) (report : list warning) :
  ~ In (dumped_line args) (hello_lines args report).
Proof.
  unfold dumped_line, hello_lines. cbn. intros [H|[H|[H|[]]]]; congruence.
Qed.

Lemma main_log_eq (args : Args) (fs : FS) (report : list warning) :
  main_log args fs report
  = match run_log args fs (-1) report with
    | (out, Raise e) => (hello_lines args report ++ out, Raise e)
    | (out, Ret written) =>
        (hello_lines args report ++ out ++ [dumped_line args], Ret written)
    end.
Proof. reflexivity. Qed.

(** X15.  For a report whose records are at line numbers at least 1:
    the counter and the printing change nothing of what the run
    returns.  When the run writes the report, the console holds the
    three opening lines, then for each record in turn the warning lines
    of that record, with its position in the report counted from 0,
    then the line that says the output was dumped.  When the run ends
    with an exception, the console holds the three opening lines and
    warning lines only: the line that says the output was dumped is not
    printed. *)
Theorem main_log_lines (args : Args) (fs : FS) (report : list warning) :
  Forall (fun w => 1 <= ln (Loc w)) report ->
  snd (main_log args fs report) = run args fs report
  /\ (forall out written,
        main_log args fs report = (out, Ret written) ->
        out = hello_lines args report
              ++ concat (imap (fun i w => record_messages fs (Z.of_nat i) w)
                              report)
              ++ [dumped_line args])
  /\ (forall out e,
        main_log args fs report = (out, Raise e) ->
        (exists lines, out = hello_lines args report ++ lines
                       /\ Forall is_warning_line lines)
        /\ ~ In (dumped_line args) out).
Proof.
  intros Hall. rewrite main_log_eq.
  pose proof (run_log_snd args fs report (-1)) as Hsnd.
  pose proof (run_log_warning args fs report (-1)) as Hwarn.
  destruct (run_log args fs (-1) report) as [o [written|e]] eqn:Hlog;
    cbn [fst snd] in *.
  - split; [exact Hsnd|]. split; [|discriminate].
    intros out written' Heq.
    assert (Hout : out = hello_lines args report ++ o ++ [dumped_line args])
      by congruence.
    rewrite Hout. clear Heq Hout.
    rewrite (run_log_fst _ _ _ _ _ _ Hall Hlog).
    assert (E : imap (fun i w => record_messages fs (-1 + 1 + Z.of_nat i) w)
                     report
                = imap (fun i w => record_messages fs (Z.of_nat i) w) report).
    { apply imap_ext. intros i x _.
      now replace (-1 + 1 + Z.of_nat i) with (Z.of_nat i) by lia. }
    now rewrite E.
  - split; [exact Hsnd|]. split; [discriminate|].
    intros out e' Heq.
    assert (Hout : out = hello_lines args report ++ o) by congruence.
    rewrite Hout. clear Heq Hout. split; [eauto|].
    intros Hin. apply in_app_or in Hin as [Hin|Hin].
    + exact (hello_not_dumped args report Hin).
    + rewrite List.Forall_forall in Hwarn.
      exact (warning_line_not_green _ _ (Hwarn _ Hin) eq_refl).
Qed.

Lemma main_log_lines_witness :
  Forall (fun w => 1 <= ln (Loc w)) [warn_line10; warn_missing; warn_three] /\
  main_log demo_args demo_fs [warn_line10; warn_missing; warn_three]
  = (hello_lines demo_args [warn_line10; warn_missing; warn_three]
     ++ [ SRT_log false (msg_cannot_find "gone.c" 1) "warning";
          SRT_log false (msg_cond_no_match "gone.c" 2) "warning" ]
     ++ [dumped_line demo_args],
     Ret [warn_line10_out; warn_missing_out; warn_three_out]) /\
  concat (imap (fun i w => record_messages demo_fs (Z.of_nat i) w)
               [warn_line10; warn_missing; warn_three])
  = [ SRT_log false (msg_cannot_find "gone.c" 1) "warning";
      SRT_log false (msg_cond_no_match "gone.c" 2) "warning" ].
Proof.
  assert (H1 : Forall (fun w => 1 <= ln (Loc w))
                      [warn_line10; warn_missing; warn_three]).
  { repeat constructor; simpl; lia. }
  assert (H2 : main_log demo_args demo_fs [warn_line10; warn_missing; warn_three]
               = (hello_lines demo_args [warn_line10; warn_missing; warn_three]
                  ++ [ SRT_log false (msg_cannot_find "gone.c" 1) "warning";
                       SRT_log false (msg_cond_no_match "gone.c" 2) "warning" ]
                  ++ [dumped_line demo_args],
                  Ret [warn_line10_out; warn_missing_out; warn_three_out]))
    by reflexivity.
  split; [exact H1|]. split; [exact H2|].
  pose proof (proj1 (proj2 (main_log_lines demo_args demo_fs _ H1)) _ _ H2) as H.
  apply app_inv_head in H. apply app_inv_tail in H. symmetry. exact H.
Defined.

(** * The neighbours of a match *)

Lemma name_tail_not_delimiter (c : ascii) :
  name_tail c = true ->
  Ascii.eqb c "'" = false /\ Ascii.eqb c dquote = false
  /\ Ascii.eqb c ")" = false /\ Ascii.eqb c "(" = false.
Proof.
  intros Hc. repeat split;
    match goal with |- Ascii.eqb c ?q = false =>
      destruct (Ascii.eqb_spec c q) as [->|]; [discriminate Hc | reflexivity]
    end.
Qed.

Lemma char_is_lookup (lstr : string) (i : Z) (ch x : ascii) :
  0 <= i -> chars lstr !! Z.to_nat i = Some x ->
  char_is lstr i ch = Ret (Ascii.eqb x ch).
Proof.
  intros Hi Hx. unfold char_is, str_index.
  now rewrite (py_index_Ret _ _ _ Hi Hx).
Qed.

Lemma is_name_match_ends (l : list ascii) :
  is_name_match l = true ->
  (exists c, l !! 0%nat = Some c /\ name_tail c = true)
  /\ (exists c, last l = Some c /\ name_tail c = true).
Proof.
  destruct l as [|c r]; [discriminate|]. cbn [is_name_match].
  intros H. apply andb_true_iff in H as [Hc Hr].
  assert (Hct : name_tail c = true) by (unfold name_tail; now rewrite Hc).
  split; [exists c; now split|].
  destruct (last (c :: r)) as [x|] eqn:Hlast; [|now apply last_None in Hlast].
  exists x. split; [reflexivity|].
  apply last_Some_elem_of in Hlast. apply elem_of_cons in Hlast as [->|Hin];
    [exact Hct|].
  rewrite forallb_forall in Hr. apply Hr. now apply list_elem_of_In.
Qed.

(** X16.  For a match of the token pattern in a line, the first test of
    [name_filter] returns, and it is true exactly when the character
    just before the match is a quote, a double quote or [)], or the
    character just after it is a quote, a double quote or [(]: a match
    at the start of the line has no character before it and a match at
    the end of the line none after it, and the clamped indices of the
    code then fall on the match itself, which holds none of these
    characters. *)
Theorem name_excluded_by_neighbours (line : string) (a b : Z) :
  (a, b) ∈ finditer line ->
  name_excluded line a b
  = Ret (neighbour_excludes
           (if 0 <? a then chars line !! Z.to_nat (a - 1) else None)
           (chars line !! Z.to_nat b)).
Proof.
  intros Hin. destruct (finditer_spec line) as [Hall _].
  rewrite List.Forall_forall in Hall.
  apply list_elem_of_In in Hin.
  destruct (Hall _ Hin) as (Hab & Hb & Hm & _). cbn [fst snd] in *.
  unfold str_len in Hb. rewrite <- length_chars in Hb.
  unfold str_slice, chars at 1 in Hm.
  rewrite list_ascii_of_string_of_list_ascii in Hm.
  rewrite py_slice_in_range in Hm by lia.
  apply is_name_match_ends in Hm as [(c0 & Hc0 & Ht0) (c1 & Hc1 & Ht1)].
  rewrite lookup_take_lt, lookup_drop in Hc0 by lia.
  rewrite Nat.add_0_r in Hc0.
  rewrite last_lookup, length_take, length_drop in Hc1.
  rewrite lookup_take_lt, lookup_drop in Hc1 by lia.
  replace (Z.to_nat a + pred (Z.to_nat (b - a) `min` (length (chars line) - Z.to_nat a)))%nat
    with (Z.to_nat (b - 1)) in Hc1 by lia.
  destruct (name_tail_not_delimiter c0 Ht0) as (Hq0 & Hd0 & Hr0 & _).
  destruct (name_tail_not_delimiter c1 Ht1) as (Hq1 & Hd1 & _ & Hl1).
  assert (Hbefore : exists x,
             chars line !! Z.to_nat (Z.max 0 (a - 1)) = Some x
             /\ match (if 0 <? a then chars line !! Z.to_nat (a - 1) else None)
                with
                | Some c => Ascii.eqb c "'" || Ascii.eqb c dquote || Ascii.eqb c ")"
                | None => false
                end
                = Ascii.eqb x "'" || Ascii.eqb x dquote || Ascii.eqb x ")").
  { destruct (Z.ltb_spec 0 a) as [Hpos|Hzero].
    - destruct (lookup_lt_is_Some_2 (chars line) (Z.to_nat (a - 1))) as [x Hx];
        [lia|].
      exists x. rewrite Z.max_r by lia. rewrite Hx. now split.
    - exists c0. rewrite Z.max_l by lia.
      replace a with 0 in Hc0 by lia. split; [exact Hc0|].
      now rewrite Hq0, Hd0, Hr0. }
  assert (Hafter : exists y,
             chars line !! Z.to_nat (Z.min (str_len line - 1) b) = Some y
             /\ match chars line !! Z.to_nat b with
                | Some c => Ascii.eqb c "'" || Ascii.eqb c dquote || Ascii.eqb c "("
                | None => false
                end
                = Ascii.eqb y "'" || Ascii.eqb y dquote || Ascii.eqb y "(").
  { unfold str_len. rewrite <- length_chars.
    destruct (Z.lt_ge_cases b (Z.of_nat (length (chars line)))) as [Hlt|Hge].
    - destruct (lookup_lt_is_Some_2 (chars line) (Z.to_nat b)) as [y Hy]; [lia|].
      exists y. rewrite Z.min_r by lia. rewrite Hy. now split.
    - exists c1. rewrite Z.min_l by lia.
      replace (Z.of_nat (length (chars line)) - 1) with (b - 1) by lia.
      split; [exact Hc1|].
      rewrite (lookup_ge_None_2 (chars line) (Z.to_nat b)) by lia.
      now rewrite Hq1, Hd1, Hl1. }
  destruct Hbefore as (x & Hx & Ex). destruct Hafter as (y & Hy & Ey).
  unfold neighbour_excludes. rewrite Ex, Ey.
  unfold name_excluded.
  rewrite !(char_is_lookup line (Z.max 0 (a - 1)) _ x) by (lia || exact Hx).
  assert (Hmin : 0 <= Z.min (str_len line - 1) b).
  { unfold str_len. rewrite <- length_chars. lia. }
  rewrite !(char_is_lookup line (Z.min (str_len line - 1) b) _ y)
    by (exact Hmin || exact Hy).
  unfold exc_or. cbn [mbind exc_bind mret exc_ret].
  destruct (Ascii.eqb x "'"), (Ascii.eqb x dquote), (Ascii.eqb x ")"),
           (Ascii.eqb y "'"), (Ascii.eqb y dquote), (Ascii.eqb y "(");
    reflexivity.
Qed.

Lemma name_excluded_by_neighbours_witness :
  (12, 15) ∈ finditer "p->q[3].x = foo(9ab, (int)y);" /\
  name_excluded "p->q[3].x = foo(9ab, (int)y);" 12 15 = Ret true.
Proof.
  assert (H : (12, 15) ∈ finditer "p->q[3].x = foo(9ab, (int)y);").
  { apply list_elem_of_In. vm_compute. tauto. }
  split; [exact H|].
  exact (name_excluded_by_neighbours _ _ _ H).
Defined.


Lemma run_all_or_nothing_witness :
  Forall2 (fun w w' => enrich demo_args demo_fs w = Ret w')
          [warn_line10; warn_missing] [warn_line10_out; warn_missing_out] /\
  run demo_args demo_fs [warn_line10; warn_missing]
  = Ret [warn_line10_out; warn_missing_out].
Proof.
  assert (H : Forall2 (fun w w' => enrich demo_args demo_fs w = Ret w')
                      [warn_line10; warn_missing]
                      [warn_line10_out; warn_missing_out]).
  { repeat constructor. }
  split; [exact H|].
  exact (proj2 (proj1 (run_all_or_nothing demo_args demo_fs _) _) H).
Defined.

(** * A warning reported at line 0 *)

(** X17.  A warning reported at line 0 whose file name has one match,
    a file with at least one line, does not fail (a record that is not
    a partial leak): [lines[l - 1]] is then the last line of the file,
    from which [Var] is computed, and with a copy range [R] at least 0
    [CodeNear] is the first [R] lines of the file, stripped. *)
Theorem enrich_at_line0 (args : Args) (fs : FS) (w : warning) (p : Path)
    (line : string) :
  rglob fs (fl (Loc w)) = [p] ->
  ln (Loc w) = 0 ->
  DT w <> SVFTag.DefectType.PL ->
  last (lines_of fs p) = Some line ->
  0 <= copy_range args ->
  exists w',
    enrich args fs w = Ret w'
    /\ Flag w' = SVFTag.true
    /\ name_filter line (finditer line) (cap_not_name args) = Ret (V w')
    /\ Code w' = strip <$> take (Z.to_nat (copy_range args)) (lines_of fs p).
Proof.
  intros Hglob Hln HPL Hlast HR.
  unfold enrich. cbn [Loc init_keys fl]. rewrite Hglob.
  unfold enrich_resolved.
  assert (Hin : In p (map fst (files fs))).
  { apply (rglob_In fs (fl (Loc w))). rewrite Hglob. now left. }
  rewrite (lines_of_open fs p Hin).
  cbn [mbind exc_bind set_fl init_keys Loc ln DT]. rewrite Hln.
  change (0 - 1) with (-1). rewrite (py_index_minus1 _ _ Hlast).
  cbn [mbind exc_bind].
  destruct (name_filter_finditer_total line (cap_not_name args)) as [names Hn].
  rewrite Hn. cbn [mbind exc_bind DT set_Code set_V set_fl init_keys].
  destruct (String.eqb_spec (DT w) SVFTag.DefectType.PL); [contradiction|].
  cbn [mbind exc_bind mret exc_ret]. eexists. split; [reflexivity|].
  cbn [Flag V Code set_status set_Code set_V].
  split; [reflexivity|]. split; [reflexivity|].
  rewrite Z.max_l by lia. rewrite py_slice_prefix by lia.
  unfold strip. f_equal.
  destruct (Z.le_ge_cases (copy_range args)
                          (Z.of_nat (length (lines_of fs p)))).
  - f_equal. lia.
  - rewrite !take_ge by lia. reflexivity.
Qed.

Lemma enrich_at_line0_witness :
  rglob demo_fs (fl (Loc warn_line0)) = [["src"; "leak.c"]] /\
  ln (Loc warn_line0) = 0 /\
  DT warn_line0 <> SVFTag.DefectType.PL /\
  last (lines_of demo_fs ["src"; "leak.c"]) = Some (String.append "}" eol) /\
  0 <= copy_range demo_args /\
  exists w',
    enrich demo_args demo_fs warn_line0 = Ret w'
    /\ Flag w' = SVFTag.true
    /\ name_filter (String.append "}" eol) (finditer (String.append "}" eol))
                   (cap_not_name demo_args) = Ret (V w')
    /\ Code w' = strip <$> take (Z.to_nat (copy_range demo_args))
                                (lines_of demo_fs ["src"; "leak.c"]).
Proof.
  assert (H1 : rglob demo_fs (fl (Loc warn_line0)) = [["src"; "leak.c"]])
    by reflexivity.
  assert (H2 : ln (Loc warn_line0) = 0) by reflexivity.
  assert (H3 : DT warn_line0 <> SVFTag.DefectType.PL) by discriminate.
  assert (H4 : last (lines_of demo_fs ["src"; "leak.c"])
               = Some (String.append "}" eol)) by reflexivity.
  assert (H5 : 0 <= copy_range demo_args) by (simpl; lia).
  split; [exact H1|]. split; [exact H2|]. split; [exact H3|].
  split; [exact H4|]. split; [exact H5|].
  exact (enrich_at_line0 demo_args demo_fs warn_line0 _ _ H1 H2 H3 H4 H5).
Defined.
